(** * mxstr: string references and growable buffers

    A shallow embedding of [mxutil.h] and [mxstr.h].

    Conventions of the model (an LP64 target, as the code is used on):
    - [size_t] and [uintptr_t] are 64-bit unsigned integers, [uint32_t] is a
      32-bit unsigned integer and [int] a 32-bit two's complement integer.
      They are carried as [Z]; every conversion and every unsigned
      subtraction of the source is written out with its wrap-around.
    - [unsigned char] is a [Z] in [0, 256).
    - Pointers are flat addresses ([Z]); [NULL] is address 0.  Pointer
      arithmetic [&p[i]] is address addition.
    - Memory is a total map from addresses to bytes.  A freshly allocated
      block holds whatever the memory held at its addresses: its contents
      are indeterminate, as in C.
    - [assert] failures abort the program: operations that may assert
      return [option], [None] standing for the abort. *)

From Stdlib Require Import ZArith Lia List Bool.
From stdpp Require Import base option list gmap.

Local Open Scope Z_scope.

(** ** Machine integers *)

Definition size_mod : Z := 2 ^ 64.
Definition u32_mod : Z := 2 ^ 32.

(** A value of type [size_t]. *)
Definition is_size (x : Z) : Prop := 0 <= x < size_mod.

(** Conversion to [size_t] (also the result of unsigned arithmetic). *)
Definition to_size (x : Z) : Z := x mod size_mod.

(** Conversion to [uint32_t]. *)
Definition to_u32 (x : Z) : Z := x mod u32_mod.

(** Conversion to [int]: reduction modulo 2^32 into [-2^31, 2^31). *)
Definition to_int (x : Z) : Z := (x + 2 ^ 31) mod u32_mod - 2 ^ 31.

(** Conversion to [unsigned char]. *)
Definition to_uchar (x : Z) : Z := x mod 256.

(** The [min] and [max] macros of mxutil.h. *)
Definition min_ (arg1 arg2 : Z) : Z := if arg1 <? arg2 then arg1 else arg2.
Definition max_ (arg1 arg2 : Z) : Z := if arg1 >? arg2 then arg1 else arg2.

(** ** Memory *)

Module Mem.

(** Byte-addressed memory. *)
Definition t : Type := Z -> Z.

Definition load (m : t) (a : Z) : Z := m a.

Definition store (m : t) (a v : Z) : t :=
  fun x => if x =? a then v else m x.

(** The [n] bytes found at address [p]. *)
Definition read (m : t) (p : Z) (n : nat) : list Z :=
  map (fun i => m (p + Z.of_nat i)) (seq 0 n).

(** [memcpy(dst, src, n)]: the regions must not overlap in C; the copy
    reads the source as it was before the call. *)
Definition memcpy (m : t) (dst src n : Z) : t :=
  fun x => if (dst <=? x) && (x <? dst + n) then m (src + (x - dst)) else m x.

(** [memset(dst, c, n)]. *)
Definition memset (m : t) (dst c n : Z) : t :=
  fun x => if (dst <=? x) && (x <? dst + n) then c else m x.

(** [memcmp(p1, p2, n)]: the difference of the first pair of bytes that
    differ (C fixes only its sign), 0 if there is none. *)
Fixpoint memcmp (m : t) (p1 p2 : Z) (n : nat) : Z :=
  match n with
  | O => 0
  | S k =>
      let d := m p1 - m p2 in
      if d =? 0 then memcmp m (p1 + 1) (p2 + 1) k else d
  end.

(** A memory holding the bytes [l] from address [p] on, zero elsewhere. *)
Definition of_list (p : Z) (l : list Z) : t :=
  fun x => if (p <=? x) && (x <? p + Z.of_nat (length l))
           then nth (Z.to_nat (x - p)) l 0 else 0.

End Mem.

(** ** String references (mxstr_t) *)

Record mxstr_t : Type := Mxstr { ptr : Z; len : Z }.

Definition NULL : Z := 0.

Definition mxstr (str : Z) (len : Z) : mxstr_t := Mxstr str len.

(** A reference whose length is a [size_t]. *)
Definition str_ok (s : mxstr_t) : Prop := is_size (len s).

(** The bytes a reference denotes. *)
Definition str_bytes (m : Mem.t) (s : mxstr_t) : list Z :=
  Mem.read m (ptr s) (Z.to_nat (len s)).

Definition mxstr_empty (str : mxstr_t) : bool := len str =? 0.

(** [assert(idx <= str.len)] aborts when the substring does not start inside
    the string. *)
Definition mxstr_substr_offset (str substr : mxstr_t) : option Z :=
  let idx := to_size (ptr substr - ptr str) in
  if idx <=? len str then Some idx else None.

Definition mxstr_prefix (str substr : mxstr_t) : option mxstr_t :=
  idx ← mxstr_substr_offset str substr;
  Some (Mxstr (ptr str) idx).

(** Returns the [ok] flag and the value stored through [substr]. *)
Definition mxstr_substr (str : mxstr_t) (start end_ : Z) : bool * mxstr_t :=
  let ok := true in
  let '(end_, ok) := if end_ <? start then (start, false) else (end_, ok) in
  let '(start, ok) :=
    if start >? len str then (len str, false) else (start, ok) in
  let '(end_, ok) := if end_ >? len str then (len str, false) else (end_, ok) in
  (ok, Mxstr (ptr str + start) (to_size (end_ - start))).

Definition mxstr_cmp (m : Mem.t) (str1 str2 : mxstr_t) : Z :=
  let cmp :=
    Mem.memcmp m (ptr str1) (ptr str2)
      (Z.to_nat (min_ (len str1) (len str2))) in
  if cmp =? 0 then to_int (to_size (len str1 - len str2)) else cmp.

(** Returns the flag and the value of [*c] after the call; [c] is its value
    before. *)
Definition mxstr_getchar (m : Mem.t) (str : mxstr_t) (c : Z) : bool * Z :=
  let ok := len str >? 0 in
  if ok then (ok, Mem.load m (ptr str)) else (ok, c).

(** Returns the updated [*str] and the number of characters consumed. *)
Definition mxstr_consume (str : mxstr_t) (len_ : Z) : mxstr_t * Z :=
  let size := min_ (len str) len_ in
  (Mxstr (ptr str + size) (to_size (len str - size)), size).

(** The macro [mxstr_consume_char(str_, c_, match_)]: [match_] is an
    expression over the auxiliary variable, evaluated after [mxstr_getchar]
    has run; [&&] evaluates left to right and stops at the first false
    operand.  Returns the flag, the updated [*str_] and the updated [*c_]. *)
Definition mxstr_consume_char (m : Mem.t) (str : mxstr_t) (c : Z)
    (match_ : Z -> bool) : bool * mxstr_t * Z :=
  let '(ok, c) := mxstr_getchar m str c in
  if ok then
    if match_ c then
      let '(str', n) := mxstr_consume str 1 in
      (n =? 1, str', c)
    else (false, str, c)
  else (false, str, c).

(** Returns the flag and the updated [*str]. *)
Definition mxstr_consume_str (m : Mem.t) (str prefix : mxstr_t)
    : bool * mxstr_t :=
  let '(ok, substr) := mxstr_substr str 0 (len prefix) in
  if ok then
    if mxstr_cmp m substr prefix =? 0 then
      let '(str', n) := mxstr_consume str (len prefix) in
      (n =? len prefix, str')
    else (false, str)
  else (false, str).

(** Returns the updated memory, the updated [*dest] and the number of
    characters written. *)
Definition mxstr_write (m : Mem.t) (dest src : mxstr_t)
    : Mem.t * mxstr_t * Z :=
  let size := min_ (len dest) (len src) in
  (Mem.memcpy m (ptr dest) (ptr src) size,
   Mxstr (ptr dest + size) (to_size (len dest - size)),
   size).

Definition mxstr_write_chars (m : Mem.t) (dest : mxstr_t) (c n : Z)
    : Mem.t * mxstr_t * Z :=
  let size := min_ (len dest) n in
  (Mem.memset m (ptr dest) c size,
   Mxstr (ptr dest + size) (to_size (len dest - size)),
   size).

Definition mxstr_putc (m : Mem.t) (str : mxstr_t) (c : Z)
    : Mem.t * mxstr_t * bool :=
  let ok := negb (mxstr_empty str) in
  if ok then (Mem.store m (ptr str) c, fst (mxstr_consume str 1), ok)
  else (m, str, ok).

(** ** The allocator

    [blocks] maps the address of every live heap block to its size and
    [brk] is the first address never handed out.  New blocks are carved at
    [brk]; [realloc] always moves the block. *)

Record heap : Type := Heap { mem : Mem.t; blocks : gmap Z Z; brk : Z }.

(** [realloc(data, size)] followed by [assert(ptr != NULL)].  The contract of
    [mxutil_realloc] excludes size 0 (a C library may return [NULL] there);
    resizing an address that is not a live block is an error.  The new block
    receives the first [min old size] bytes of the old one; the rest of it,
    and all of it when [data] is [NULL], is what the memory held there. *)
Definition mxutil_realloc (h : heap) (data size : Z) : option (heap * Z) :=
  if size =? 0 then None
  else
    let p := brk h in
    if data =? NULL then
      Some (Heap (mem h) (<[p := size]> (blocks h)) (p + size), p)
    else
      old ← blocks h !! data;
      Some (Heap (Mem.memcpy (mem h) p data (Z.min old size))
                 (<[p := size]> (delete data (blocks h)))
                 (p + size), p).

(** [free(data)]. *)
Definition heap_free (h : heap) (data : Z) : option heap :=
  if data =? NULL then Some h
  else
    _ ← blocks h !! data;
    Some (Heap (mem h) (delete data (blocks h)) (brk h)).

(** ** Buffers (mxbuf_t) *)

Record mxbuf_t : Type :=
  Mxbuf { buf : mxstr_t; available : mxstr_t; init : mxstr_t }.

(** The machine state a buffer operation works on: the heap and the buffer
    structure its [mxbuf_t *] argument points to. *)
Record state : Type := State { st_heap : heap; st_buf : mxbuf_t }.

(** Buffer operations pass the state along; [None] is an abort. *)
Definition M (A : Type) : Type := state -> option (A * state).

#[global] Instance M_ret : MRet M := fun A a s => Some (a, s).

#[global] Instance M_bind : MBind M := fun A B k x s =>
  match x s with Some (a, s') => k a s' | None => None end.

Definition get_buffer : M mxbuf_t := fun s => Some (st_buf s, s).

Definition set_buf (str : mxstr_t) : M unit := fun s =>
  let b := st_buf s in
  Some (tt, State (st_heap s) (Mxbuf str (available b) (init b))).

Definition set_available (str : mxstr_t) : M unit := fun s =>
  let b := st_buf s in
  Some (tt, State (st_heap s) (Mxbuf (buf b) str (init b))).

(** Calling a string function on [&buffer->available]: it may write to
    memory and updates the reference. *)
Definition on_available {A} (f : Mem.t -> mxstr_t -> Mem.t * mxstr_t * A)
    : M A := fun s =>
  let h := st_heap s in
  let b := st_buf s in
  let '(m, dest, a) := f (mem h) (available b) in
  Some (a, State (Heap m (blocks h) (brk h)) (Mxbuf (buf b) dest (init b))).

Definition assert_some {A} (o : option A) : M A := fun s =>
  match o with Some a => Some (a, s) | None => None end.

Definition realloc_ (data size : Z) : M Z := fun s =>
  match mxutil_realloc (st_heap s) data size with
  | Some (h, p) => Some (p, State h (st_buf s))
  | None => None
  end.

Definition free_ (data : Z) : M unit := fun s =>
  match heap_free (st_heap s) data with
  | Some h => Some (tt, State h (st_buf s))
  | None => None
  end.

Definition mxbuf_create (p len_ : Z) : M unit := fun s =>
  let str := mxstr p len_ in
  Some (tt, State (st_heap s) (Mxbuf str str str)).

Definition mxbuf_reset : M unit :=
  b ← get_buffer;
  set_available (buf b).

Definition mxbuf_free : M unit :=
  b ← get_buffer;
  (if negb (ptr (buf b) =? ptr (init b)) then free_ (ptr (buf b))
   else mret tt);;
  set_buf (init b);;
  set_available (init b).

Definition mxbuf_trim : M unit :=
  b ← get_buffer;
  if negb (ptr (buf b) =? ptr (init b)) then
    len_ ← assert_some (mxstr_substr_offset (buf b) (available b));
    p ← realloc_ (ptr (buf b)) len_;
    let str := mxstr p len_ in
    set_buf str;;
    set_available (snd (mxstr_substr str len_ len_))
  else mret tt.

Definition mxbuf_str : M mxstr_t :=
  b ← get_buffer;
  assert_some (mxstr_prefix (buf b) (available b)).

(** ** mxutil_size_p2 and the operations that grow a buffer *)

Section Model.

(** [__builtin_clz(0)] is undefined: its result is left open. *)
Variable clz0 : Z.

(** [__builtin_clz] on a 32-bit value: the number of leading zero bits. *)
Definition builtin_clz (value : Z) : Z :=
  if value =? 0 then clz0 else 31 - Z.log2 value.

(** [1 << (32 - __builtin_clz(value))], returned as [uint32_t].  For
    [value >= 2^31] the shift count is 32, which C leaves undefined; the
    model lets the result wrap to 0, and no property below depends on it. *)
Definition mxutil_size_p2 (value : Z) : Z :=
  to_u32 (Z.shiftl 1 (32 - builtin_clz value)).

(** The [size_t] arguments are converted to the [uint32_t] parameter of
    [mxutil_size_p2]. *)
Definition mxbuf_require (size : Z) : M unit :=
  b ← get_buffer;
  if len (available b) <? size then
    let new_size :=
      max_ (mxutil_size_p2 (to_u32 (len (buf b))))
           (mxutil_size_p2 (to_u32 size)) in
    len_ ← assert_some (mxstr_substr_offset (buf b) (available b));
    let p := if negb (ptr (buf b) =? ptr (init b)) then ptr (buf b)
             else NULL in
    q ← realloc_ p new_size;
    let str := mxstr q new_size in
    set_buf str;;
    set_available (snd (mxstr_substr str len_ new_size))
  else mret tt.

Definition mxbuf_write (str : mxstr_t) : M Z :=
  mxbuf_require (len str);;
  on_available (fun m dest => mxstr_write m dest str).

Definition mxbuf_putc (c : Z) : M bool :=
  mxbuf_require 1;;
  on_available (fun m dest => mxstr_putc m dest c).

(** The arguments of [mxbuf_putc] are converted to [unsigned char]. *)
Definition mxbuf_put_utf8 (c : Z) : M bool :=
  let ok := true in
  if c <? 0x80 then
    mxbuf_putc (to_uchar c);;
    mret ok
  else if c <? 0x800 then
    mxbuf_putc (to_uchar (0xc0 + Z.land (Z.shiftr c 6) 0x1f));;
    mxbuf_putc (to_uchar (0x80 + Z.land c 0x3f));;
    mret ok
  else if c <? 0x10000 then
    mxbuf_putc (to_uchar (0xe0 + Z.land (Z.shiftr c 12) 0xf));;
    mxbuf_putc (to_uchar (0x80 + Z.land (Z.shiftr c 6) 0x3f));;
    mxbuf_putc (to_uchar (0x80 + Z.land c 0x3f));;
    mret ok
  else if c <? 0x110000 then
    mxbuf_putc (to_uchar (0xf0 + Z.land (Z.shiftr c 18) 0x7));;
    mxbuf_putc (to_uchar (0x80 + Z.land (Z.shiftr c 12) 0x3f));;
    mxbuf_putc (to_uchar (0x80 + Z.land (Z.shiftr c 6) 0x3f));;
    mxbuf_putc (to_uchar (0x80 + Z.land c 0x3f));;
    mret ok
  else mret false.

Definition mxbuf_write_chars (c n : Z) : M Z :=
  mxbuf_require n;;
  on_available (fun m dest => mxstr_write_chars m dest c n).

End Model.

(** ** Specification-level notions *)

(** Lexicographic comparison of byte strings: the difference of the first
    bytes that differ; when one string is a prefix of the other, the shorter
    one comes first. *)
Fixpoint lex_cmp (l1 l2 : list Z) : Z :=
  match l1, l2 with
  | [], [] => 0
  | [], _ :: _ => -1
  | _ :: _, [] => 1
  | x :: l1', y :: l2' => if x - y =? 0 then lex_cmp l1' l2' else x - y
  end.

(** The number of bytes written to a buffer. *)
Definition written (b : mxbuf_t) : Z := len (buf b) - len (available b).

(** The buffer allocated its current storage itself. *)
Definition owned (b : mxbuf_t) : Prop := ptr (buf b) <> ptr (init b).

(** The invariant of [mxbuf_t]: [available] is a suffix of [buf] (and the
    lengths of the storage and of the caller's range are [size_t] values). *)
Definition buf_inv (b : mxbuf_t) : Prop :=
  is_size (len (buf b)) /\
  is_size (len (init b)) /\
  0 <= len (available b) <= len (buf b) /\
  ptr (available b) = ptr (buf b) + (len (buf b) - len (available b)).

(** The buffer agrees with the allocator: storage it owns is a live block of
    the recorded size, and the caller's range is not in the unused part of
    the address space. *)
Definition heap_ok (h : heap) (b : mxbuf_t) : Prop :=
  0 < brk h /\
  ptr (init b) < brk h /\
  (owned b ->
   ptr (buf b) <> NULL /\
   blocks h !! ptr (buf b) = Some (len (buf b)) /\
   ptr (buf b) + len (buf b) <= brk h).

(** The bytes written to the buffer, read from its storage. *)
Definition contents (s : state) : list Z :=
  Mem.read (mem (st_heap s)) (ptr (buf (st_buf s)))
           (Z.to_nat (written (st_buf s))).

(** A buffer on which [k] more single-byte writes are sound: it agrees with
    the allocator, and either the bytes fit, or the buffer can grow without
    loss (its storage is its own or nothing is stored yet) and stays within
    the range [mxutil_size_p2] is exact on. *)
Definition can_put (s : state) (k : Z) : Prop :=
  let b := st_buf s in
  buf_inv b /\ heap_ok (st_heap s) b /\
  (k <= len (available b) \/
   ((owned b \/ len (buf b) = 0) /\ written b + k <= 2 ^ 31)).

(** UTF-8 as the standard tabulates it (RFC 3629), by quotient and
    remainder. *)
Definition utf8_encode (c : Z) : list Z :=
  if c <? 0x80 then [c]
  else if c <? 0x800 then [0xC0 + c / 64; 0x80 + c mod 64]
  else if c <? 0x10000 then
    [0xE0 + c / 4096; 0x80 + (c / 64) mod 64; 0x80 + c mod 64]
  else
    [0xF0 + c / 262144; 0x80 + (c / 4096) mod 64; 0x80 + (c / 64) mod 64;
     0x80 + c mod 64].

(** Writing the bytes of a list one after the other with [mxbuf_putc], the
    results discarded. *)
Fixpoint putc_all (clz0 : Z) (l : list Z) : M unit :=
  match l with
  | [] => mret tt
  | c :: l' => mxbuf_putc clz0 c;; putc_all clz0 l'
  end.

(** The bytes of the reference [mxbuf_str] returns. *)
Definition mxbuf_bytes : M (list Z) := fun s =>
  match mxbuf_str s with
  | Some (v, s') => Some (str_bytes (mem (st_heap s')) v, s')
  | None => None
  end.

(** The value a computation returns, when it does not abort. *)
Definition result {A} (x : M A) (s : state) : option A :=
  match x s with Some (a, _) => Some a | None => None end.

(** The smallest power of two strictly greater than [x] (for [0 < x]). *)
Definition next_pow2_gt (x : Z) : Z := 2 ^ (Z.log2 x + 1).

(** The smallest power of two greater than or equal to [x]. *)
Definition next_pow2_ge (x : Z) : Z := 2 ^ Z.log2_up x.

(** The growth policy in the words of the specification: the larger of the
    next power of two >= the current capacity and the next power of two >=
    the required total size. *)
Definition spec_new_capacity (capacity written_ size : Z) : Z :=
  Z.max (next_pow2_ge capacity) (next_pow2_ge (written_ + size)).

(** [dest'] is what remains of [dest] once some of its front is used. *)
Definition advances (dest dest' : mxstr_t) : Prop :=
  exists size,
    0 <= size <= len dest /\
    ptr dest' = ptr dest + size /\ len dest' = len dest - size.

(** A computation keeps the buffer invariant. *)
Definition preserves {A} (x : M A) : Prop :=
  forall s a s',
    buf_inv (st_buf s) -> x s = Some (a, s') -> buf_inv (st_buf s').

(** The buffer operations, as one family. *)
Inductive mxbuf_op : Type :=
| OpCreate (p len_ : Z)
| OpReset
| OpFree
| OpTrim
| OpRequire (size : Z)
| OpWrite (str : mxstr_t)
| OpPutc (c : Z)
| OpPutUtf8 (c : Z)
| OpWriteChars (c n : Z).

Definition run_op (clz0 : Z) (op : mxbuf_op) : M unit :=
  match op with
  | OpCreate p len_ => mxbuf_create p len_
  | OpReset => mxbuf_reset
  | OpFree => mxbuf_free
  | OpTrim => mxbuf_trim
  | OpRequire size => mxbuf_require clz0 size
  | OpWrite str => mxbuf_write clz0 str;; mret tt
  | OpPutc c => mxbuf_putc clz0 c;; mret tt
  | OpPutUtf8 c => mxbuf_put_utf8 clz0 c;; mret tt
  | OpWriteChars c n => mxbuf_write_chars clz0 c n;; mret tt
  end.

(** A sequence of operations, run in order. *)
Fixpoint run_ops (clz0 : Z) (ops : list mxbuf_op) : M unit :=
  match ops with
  | [] => mret tt
  | op :: ops' => run_op clz0 op;; run_ops clz0 ops'
  end.

(** The arguments of an operation have the types the source gives them. *)
Definition op_ok (op : mxbuf_op) : Prop :=
  match op with
  | OpCreate _ len_ => is_size len_
  | OpRequire size => is_size size
  | OpWrite str => str_ok str
  | OpWriteChars _ n => is_size n
  | _ => True
  end.

(** What an operation needs of the buffer it is applied to: [mxbuf_create]
    initialises it, every other operation expects the invariant. *)
Definition op_pre (op : mxbuf_op) (b : mxbuf_t) : Prop :=
  match op with
  | OpCreate _ _ => True
  | _ => buf_inv b
  end.

(** ** Further operations and notions *)

(** The macro [mxstr_consume_chars(str_, c_, match_)]: the loop
    [while (mxstr_consume_char(str_, c_, match_));] evaluates
    [mxstr_consume_char] until it yields false.  [fuel] bounds the number of
    evaluations; [None] means the bound was reached.  Returns the updated
    [*str_] and the updated [*c_]. *)
Fixpoint mxstr_consume_chars (fuel : nat) (m : Mem.t) (str : mxstr_t)
    (c : Z) (match_ : Z -> bool) : option (mxstr_t * Z) :=
  match fuel with
  | O => None
  | S fuel' =>
      let '(ok, str', c') := mxstr_consume_char m str c match_ in
      if ok then mxstr_consume_chars fuel' m str' c' match_
      else Some (str', c')
  end.

(** Two address ranges have no byte in common. *)
Definition disjoint (p1 n1 p2 n2 : Z) : Prop :=
  p1 + n1 <= p2 \/ p2 + n2 <= p1.

(** The allocator's table is sound: every live block has a positive address
    and size and lies below [brk]. *)
Definition heap_wf (h : heap) : Prop :=
  0 < brk h /\
  forall a sz, blocks h !! a = Some sz -> 0 < a /\ 0 < sz /\ a + sz <= brk h.

(** The live blocks other than the storage the buffer allocated for
    itself. *)
Definition foreign (h : heap) (b : mxbuf_t) : gmap Z Z :=
  if negb (ptr (buf b) =? ptr (init b)) then delete (ptr (buf b)) (blocks h)
  else blocks h.

(** A state in which the buffer satisfies its invariant and agrees with a
    sound allocator, [F] being the blocks that are not the buffer's. *)
Definition safe (F : gmap Z Z) (s : state) : Prop :=
  buf_inv (st_buf s) /\
  heap_ok (st_heap s) (st_buf s) /\
  heap_wf (st_heap s) /\
  foreign (st_heap s) (st_buf s) = F.

(** A computation keeps such states, with the same foreign blocks. *)
Definition keeps {A} (x : M A) : Prop :=
  forall F s a s', safe F s -> x s = Some (a, s') -> safe F s'.

(** What the safety of an operation starts from: [mxbuf_create] needs a
    sound allocator and a range that is not in the unused part of the
    address space; every other operation needs a safe state. *)
Definition op_safe_pre (op : mxbuf_op) (F : gmap Z Z) (s : state) : Prop :=
  match op with
  | OpCreate p _ =>
      heap_wf (st_heap s) /\ p < brk (st_heap s) /\ F = blocks (st_heap s)
  | _ => safe F s
  end.


(** A continuation byte of UTF-8: [10xxxxxx]. *)
Definition utf8_cont (b : Z) : bool := (0x80 <=? b) && (b <? 0xC0).

(** Decoding of one UTF-8 sequence as the standard lays it out (RFC 3629):
    the lead byte gives the length, each continuation byte six bits. *)
Definition utf8_decode (l : list Z) : option Z :=
  match l with
  | [b0] => if (0 <=? b0) && (b0 <? 0x80) then Some b0 else None
  | [b0; b1] =>
      if (0xC0 <=? b0) && (b0 <? 0xE0) && utf8_cont b1
      then Some ((b0 - 0xC0) * 64 + (b1 - 0x80)) else None
  | [b0; b1; b2] =>
      if (0xE0 <=? b0) && (b0 <? 0xF0) && utf8_cont b1 && utf8_cont b2
      then Some ((b0 - 0xE0) * 4096 + (b1 - 0x80) * 64 + (b2 - 0x80))
      else None
  | [b0; b1; b2; b3] =>
      if (0xF0 <=? b0) && (b0 <? 0xF8) && utf8_cont b1 && utf8_cont b2
         && utf8_cont b3
      then Some ((b0 - 0xF0) * 262144 + (b1 - 0x80) * 4096
                 + (b2 - 0x80) * 64 + (b3 - 0x80))
      else None
  | _ => None
  end.

(** The number of bytes the standard gives a code point. *)
Definition utf8_length (c : Z) : nat :=
  if c <? 0x80 then 1 else if c <? 0x800 then 2
  else if c <? 0x10000 then 3 else 4.

(** The address [a] lies in the storage of the buffer. *)
Definition in_storage (b : mxbuf_t) (a : Z) : Prop :=
  ptr (buf b) <= a < ptr (buf b) + len (buf b).

(** From [s] to [s'] memory changed only inside the storage of the buffer
    or in memory that was unused in [s], and the storage stayed where it was
    or moved into such memory. *)
Definition frame (s s' : state) : Prop :=
  brk (st_heap s) <= brk (st_heap s') /\
  (forall a, a < brk (st_heap s) -> ~ in_storage (st_buf s) a ->
             mem (st_heap s') a = mem (st_heap s) a) /\
  (forall a, in_storage (st_buf s') a ->
             in_storage (st_buf s) a \/ brk (st_heap s) <= a).

Definition frames {A} (x : M A) : Prop :=
  forall F s a s', safe F s -> x s = Some (a, s') -> frame s s'.

(** The reader loop
    [while (mxstr_getchar(str, &c)) { emit(c); mxstr_consume(&str, 1); }]:
    the bytes emitted and the view left when [mxstr_getchar] returns false
    ([None]: the iterations allowed did not suffice). *)
Fixpoint getchar_loop (fuel : nat) (m : Mem.t) (str : mxstr_t) (c : Z)
    : option (list Z * mxstr_t) :=
  match fuel with
  | O => None
  | S fuel =>
      let '(ok, c) := mxstr_getchar m str c in
      if ok then
        match getchar_loop fuel m (fst (mxstr_consume str 1)) c with
        | Some (l, str') => Some (c :: l, str')
        | None => None
        end
      else Some ([], str)
  end.
(** * Properties *)

(** ** Machine integers *)

Lemma min_spec a b : min_ a b = Z.min a b.
Proof. unfold min_. destruct (Z.ltb_spec a b); lia. Qed.

Lemma max_spec a b : max_ a b = Z.max a b.
Proof. unfold max_. destruct (Z.gtb_spec a b); lia. Qed.

Lemma to_size_small x : is_size x -> to_size x = x.
Proof. intros H. apply Z.mod_small. exact H. Qed.

Lemma to_size_sub a b : is_size a -> 0 <= b <= a -> to_size (a - b) = a - b.
Proof. intros Ha Hb. apply to_size_small. unfold is_size in *. lia. Qed.

Lemma to_size_ptr_diff p i : is_size i -> to_size (p + i - p) = i.
Proof. intros H. replace (p + i - p) with i by lia. now apply to_size_small. Qed.

Lemma to_u32_small x : 0 <= x < u32_mod -> to_u32 x = x.
Proof. intros H. now apply Z.mod_small. Qed.

(** Case analysis on the integer comparisons of the goal and of the
    hypotheses. *)
Ltac zbool :=
  repeat match goal with
  | |- context [?a <? ?b] => destruct (Z.ltb_spec a b)
  | |- context [?a >? ?b] => destruct (Z.gtb_spec a b)
  | |- context [?a <=? ?b] => destruct (Z.leb_spec a b)
  | |- context [?a =? ?b] => destruct (Z.eqb_spec a b)
  | _ : context [?a <? ?b] |- _ => destruct (Z.ltb_spec a b)
  | _ : context [?a >? ?b] |- _ => destruct (Z.gtb_spec a b)
  | _ : context [?a <=? ?b] |- _ => destruct (Z.leb_spec a b)
  | _ : context [?a =? ?b] |- _ => destruct (Z.eqb_spec a b)
  end.

(** ** Memory *)

Lemma read_length m p n : length (Mem.read m p n) = n.
Proof. unfold Mem.read. now rewrite length_map, length_seq. Qed.

Lemma read_S m p n : Mem.read m p (S n) = m p :: Mem.read m (p + 1) n.
Proof.
  unfold Mem.read. cbn [seq map]. f_equal.
  - f_equal. lia.
  - rewrite <- seq_shift, map_map. apply map_ext. intros i. f_equal. lia.
Qed.

Lemma read_app m p n k :
  Mem.read m p (n + k) = Mem.read m p n ++ Mem.read m (p + Z.of_nat n) k.
Proof.
  revert p. induction n as [|n IH]; intros p.
  - cbn [Nat.add]. cbn. f_equal. lia.
  - cbn [Nat.add]. rewrite !read_S, IH. cbn. do 3 f_equal. lia.
Qed.

Lemma read_ext m m' p n :
  (forall a, p <= a < p + Z.of_nat n -> m a = m' a) ->
  Mem.read m p n = Mem.read m' p n.
Proof.
  intros H. unfold Mem.read. apply map_ext_in. intros i Hi.
  apply in_seq in Hi. apply H. lia.
Qed.

Lemma read_firstn m p n k :
  (k <= n)%nat -> firstn k (Mem.read m p n) = Mem.read m p k.
Proof.
  intros H. replace n with (k + (n - k))%nat by lia.
  rewrite read_app. rewrite firstn_app, read_length.
  replace (k - k)%nat with O by lia. rewrite firstn_O, app_nil_r.
  apply firstn_all2. rewrite read_length. lia.
Qed.

Lemma memcmp_zero_iff m p1 p2 n :
  Mem.memcmp m p1 p2 n = 0 <-> Mem.read m p1 n = Mem.read m p2 n.
Proof.
  revert p1 p2. induction n as [|n IH]; intros p1 p2.
  - cbn. split; reflexivity.
  - rewrite !read_S. cbn [Mem.memcmp].
    destruct (Z.eqb_spec (m p1 - m p2) 0) as [E|E].
    + rewrite IH. split.
      * intros ->. f_equal. lia.
      * intros H. now inversion H.
    + split; [lia|]. intros H. inversion H. lia.
Qed.

Lemma memcmp_refl m p n : Mem.memcmp m p p n = 0.
Proof. apply memcmp_zero_iff. reflexivity. Qed.

Lemma memcmp_antisym m p1 p2 n :
  Mem.memcmp m p2 p1 n = - Mem.memcmp m p1 p2 n.
Proof.
  revert p1 p2. induction n as [|n IH]; intros p1 p2; cbn [Mem.memcmp]; [lia|].
  destruct (Z.eqb_spec (m p1 - m p2) 0), (Z.eqb_spec (m p2 - m p1) 0);
    try lia. apply IH.
Qed.

(** ** Substrings *)

(** The result of [mxstr_substr] in closed form: the flag is the conjunction
    of the three tests, the range is clamped. *)
Lemma mxstr_substr_eq v start end_ :
  str_ok v -> is_size start -> is_size end_ ->
  mxstr_substr v start end_ =
    (negb (end_ <? start) && negb (start >? len v) && negb (end_ >? len v),
     Mxstr (ptr v + Z.min start (len v))
           (Z.min (Z.max start end_) (len v) - Z.min start (len v))).
Proof.
  unfold str_ok, mxstr_substr. intros Hv Hs He.
  destruct (Z.ltb_spec end_ start), (Z.gtb_spec start (len v)); cbn;
    zbool; cbn; try lia;
    (f_equal; f_equal; [lia|]);
    (rewrite to_size_sub by (unfold is_size in *; lia)); lia.
Qed.

(** C3. For every view [v] and all indices [start] and [end_],
    [mxstr_substr] returns the range [start, end_) clamped into
    [0, len v]: an in-bounds, possibly empty, sub-range of [v]; the flag is
    false exactly when [end_ < start], [start > len v] or [end_ > len v].
    On a 10-byte view, [(2, 5)] gives the exact 3-byte range and true,
    [(5, 3)] gives false and the empty range at offset 5, [(20, 25)] gives
    false and the empty range at offset 10. *)
Theorem mxstr_substr_spec :
  (forall v start end_,
     str_ok v -> is_size start -> is_size end_ ->
     let r := mxstr_substr v start end_ in
     let s := Z.min start (len v) in
     let e := Z.min (Z.max start end_) (len v) in
     snd r = Mxstr (ptr v + s) (e - s) /\
     0 <= s <= e /\ e <= len v /\
     (fst r = false <-> end_ < start \/ start > len v \/ end_ > len v) /\
     (fst r = true -> snd r = Mxstr (ptr v + start) (end_ - start))) /\
  (forall p,
     mxstr_substr (Mxstr p 10) 2 5 = (true, Mxstr (p + 2) 3) /\
     mxstr_substr (Mxstr p 10) 5 3 = (false, Mxstr (p + 5) 0) /\
     mxstr_substr (Mxstr p 10) 20 25 = (false, Mxstr (p + 10) 0)).
Proof.
  split.
  - intros v start end_ Hv Hs He r s e. subst r s e.
    rewrite mxstr_substr_eq by assumption. cbn [fst snd].
    unfold str_ok, is_size in *.
    repeat split; try lia.
    intros H. f_equal; lia.
  - intros p. repeat split.
Qed.

Lemma mxstr_substr_spec_witness :
  snd (mxstr_substr (Mxstr 100 10) 7 25) = Mxstr 107 3 /\
  fst (mxstr_substr (Mxstr 100 10) 7 25) = false.
Proof.
  destruct mxstr_substr_spec as [H _].
  destruct (H (Mxstr 100 10) 7 25) as (Hr & _ & _ & Hok & _);
    [unfold str_ok, is_size, size_mod; cbn; lia
    |unfold is_size, size_mod; lia
    |unfold is_size, size_mod; lia|].
  split; [exact Hr|]. apply Hok. right. right. cbn. lia.
Defined.

(** [mxstr_prefix] of a sub-range returned by [mxstr_substr]. *)
Lemma mxstr_prefix_substr v start end_ :
  str_ok v -> is_size start -> is_size end_ ->
  mxstr_prefix v (snd (mxstr_substr v start end_)) =
    Some (Mxstr (ptr v) (Z.min start (len v))).
Proof.
  intros Hv Hs He. rewrite mxstr_substr_eq by assumption. cbn [snd].
  unfold mxstr_prefix, mxstr_substr_offset. cbn [ptr len].
  unfold str_ok, is_size in *.
  rewrite to_size_ptr_diff by (unfold is_size; lia).
  destruct (Z.leb_spec (Z.min start (len v)) (len v)); [reflexivity|lia].
Qed.

(** C4 fails as stated: on the ten bytes ["0123456789"] the sub-range
    [2, 5) and its prefix concatenate to ["01234"], not to the whole view. *)
Lemma mxstr_prefix_substr_counterexample :
  let m := Mem.of_list 100 [48; 49; 50; 51; 52; 53; 54; 55; 56; 57] in
  let a := Mxstr 100 10 in
  let s := Mxstr 102 3 in
  let p := Mxstr 100 2 in
  mxstr_substr a 2 5 = (true, s) /\
  mxstr_prefix a s = Some p /\
  str_bytes m p ++ str_bytes m s = [48; 49; 50; 51; 52] /\
  str_bytes m a = [48; 49; 50; 51; 52; 53; 54; 55; 56; 57] /\
  str_bytes m p ++ str_bytes m s <> str_bytes m a.
Proof. cbv zeta. repeat split. vm_compute. discriminate. Qed.

(** C4, amended. For every view [a] and every sub-range [s] that
    [mxstr_substr a start end_] returns with a true flag, [mxstr_prefix a s]
    is the range of [a] before [start], and the prefix followed by [s] is the
    first [end_] bytes of [a]; it is the whole of [a] when [end_ = len a],
    that is when [s] is the remainder of [a] from [start] on. *)
Theorem mxstr_prefix_substr_concat m a start end_ s :
  str_ok a -> is_size start -> is_size end_ ->
  mxstr_substr a start end_ = (true, s) ->
  exists p,
    mxstr_prefix a s = Some p /\
    p = Mxstr (ptr a) start /\
    str_bytes m p ++ str_bytes m s = firstn (Z.to_nat end_) (str_bytes m a) /\
    (end_ = len a -> str_bytes m p ++ str_bytes m s = str_bytes m a).
Proof.
  intros Ha Hs He H.
  pose proof (mxstr_prefix_substr a start end_ Ha Hs He) as Hp.
  rewrite H in Hp. cbn [snd] in Hp.
  rewrite mxstr_substr_eq in H by assumption.
  injection H as Hok <-.
  unfold str_ok, is_size in *.
  assert (start <= end_ <= len a) as Hr by (revert Hok; zbool; cbn; lia || discriminate).
  replace (Z.min start (len a)) with start in * by lia.
  replace (Z.min (Z.max start end_) (len a)) with end_ by lia.
  exists (Mxstr (ptr a) start). split; [exact Hp|]. split; [reflexivity|].
  assert (str_bytes m (Mxstr (ptr a) start) ++
          str_bytes m (Mxstr (ptr a + start) (end_ - start)) =
          Mem.read m (ptr a) (Z.to_nat end_)) as E.
  { unfold str_bytes. cbn [ptr len].
    replace (Z.to_nat end_) with (Z.to_nat start + Z.to_nat (end_ - start))%nat
      by lia.
    rewrite read_app. do 2 f_equal. lia. }
  split.
  - rewrite E. unfold str_bytes. symmetry. apply read_firstn. lia.
  - intros ->. exact E.
Qed.

Lemma mxstr_prefix_substr_concat_witness :
  exists p,
    mxstr_prefix (Mxstr 100 10) (Mxstr 102 3) = Some p /\
    p = Mxstr 100 2 /\
    str_bytes (Mem.of_list 100 [48; 49; 50; 51; 52; 53; 54; 55; 56; 57]) p ++
    str_bytes (Mem.of_list 100 [48; 49; 50; 51; 52; 53; 54; 55; 56; 57])
              (Mxstr 102 3) =
    firstn 5 [48; 49; 50; 51; 52; 53; 54; 55; 56; 57].
Proof.
  destruct (mxstr_prefix_substr_concat
              (Mem.of_list 100 [48; 49; 50; 51; 52; 53; 54; 55; 56; 57])
              (Mxstr 100 10) 2 5 (Mxstr 102 3)) as (p & Hp & Hv & Hc & _).
  - unfold str_ok, is_size, size_mod. cbn. lia.
  - unfold is_size, size_mod. lia.
  - unfold is_size, size_mod. lia.
  - reflexivity.
  - exists p. repeat split; assumption.
Defined.

(** ** Comparison *)

Lemma to_int_to_size x : - 2 ^ 31 <= x < 2 ^ 31 -> to_int (to_size x) = x.
Proof.
  intros H. unfold to_int, to_size, size_mod, u32_mod.
  destruct (Z_lt_le_dec x 0) as [Hn|Hn].
  - replace (x mod 2 ^ 64) with (x + 2 ^ 64)
      by (apply Z.mod_unique with (-1); lia).
    replace (x + 2 ^ 64 + 2 ^ 31) with (x + 2 ^ 31 + 2 ^ 32 * 2 ^ 32) by lia.
    rewrite Z.mod_add by lia.
    rewrite Z.mod_small; lia.
  - rewrite (Z.mod_small x) by lia. rewrite Z.mod_small; lia.
Qed.

(** On references of equal length the comparison is zero exactly when the
    bytes agree. *)
Lemma mxstr_cmp_same_len m a b :
  len a = len b ->
  (mxstr_cmp m a b = 0 <-> str_bytes m a = str_bytes m b).
Proof.
  intros E. unfold mxstr_cmp, str_bytes. rewrite min_spec, <- E, Z.min_id.
  rewrite Z.sub_diag. change (to_int (to_size 0)) with 0.
  rewrite <- memcmp_zero_iff.
  destruct (Z.eqb_spec (Mem.memcmp m (ptr a) (ptr b) (Z.to_nat (len a))) 0);
    [rewrite e; tauto | tauto].
Qed.

Lemma mxstr_cmp_refl m a : mxstr_cmp m a a = 0.
Proof. apply mxstr_cmp_same_len; reflexivity. Qed.

(** C5. The claim (a total preorder, shorter view first on equal prefixes)
    does not hold of the code for every view: the difference of the two
    [size_t] lengths is converted to [int].  A view of 2^31 bytes and the
    empty view compare negative both ways, and a view of 2^32 bytes compares
    equal to the empty view. *)
Theorem mxstr_cmp_length_truncation (m : Mem.t) (p q : Z) :
  let a := Mxstr p (2 ^ 31) in
  let b := Mxstr q 0 in
  str_ok a /\ str_ok b /\
  mxstr_cmp m a b = - 2 ^ 31 /\
  mxstr_cmp m b a = - 2 ^ 31 /\
  mxstr_cmp m (Mxstr p (2 ^ 32)) b = 0.
Proof.
  cbv zeta. unfold str_ok, is_size. cbn [len].
  repeat split; try (unfold size_mod; lia); vm_compute; congruence.
Qed.

Lemma lex_cmp_refl l : lex_cmp l l = 0.
Proof.
  induction l as [|x l IH]; [reflexivity|]. cbn.
  now rewrite Z.sub_diag.
Qed.

Lemma lex_cmp_antisym l1 l2 :
  Z.sgn (lex_cmp l2 l1) = - Z.sgn (lex_cmp l1 l2).
Proof.
  revert l2. induction l1 as [|x l1 IH]; intros [|y l2]; cbn;
    try reflexivity.
  destruct (Z.eqb_spec (x - y) 0), (Z.eqb_spec (y - x) 0); try lia.
  apply IH.
Qed.

Lemma lex_cmp_trans l1 l2 l3 :
  lex_cmp l1 l2 <= 0 -> lex_cmp l2 l3 <= 0 -> lex_cmp l1 l3 <= 0.
Proof.
  revert l2 l3. induction l1 as [|x l1 IH]; intros [|y l2] [|z l3]; cbn;
    try lia.
  destruct (Z.eqb_spec (x - y) 0), (Z.eqb_spec (y - z) 0),
    (Z.eqb_spec (x - z) 0); try lia.
  apply IH.
Qed.

Lemma memcmp_lex m p1 p2 n1 n2 :
  let c := Mem.memcmp m p1 p2 (Nat.min n1 n2) in
  Z.sgn (if c =? 0 then Z.of_nat n1 - Z.of_nat n2 else c) =
  Z.sgn (lex_cmp (Mem.read m p1 n1) (Mem.read m p2 n2)).
Proof.
  cbv zeta. revert p1 p2 n2.
  induction n1 as [|n1 IH]; intros p1 p2 [|n2];
    rewrite ?read_S; cbn [Nat.min Mem.memcmp lex_cmp Mem.read seq map];
    try (cbn; lia).
  destruct (Z.eqb_spec (m p1 - m p2) 0) as [E|E].
  - rewrite <- IH. now replace (Z.of_nat (S n1) - Z.of_nat (S n2))
      with (Z.of_nat n1 - Z.of_nat n2) by lia.
  - destruct (Z.eqb_spec (m p1 - m p2) 0); [contradiction|reflexivity].
Qed.

(** On views shorter than 2^31 bytes [mxstr_cmp] has the sign of the
    lexicographic comparison of their bytes. *)
Lemma mxstr_cmp_lex m a b :
  0 <= len a < 2 ^ 31 -> 0 <= len b < 2 ^ 31 ->
  Z.sgn (mxstr_cmp m a b) = Z.sgn (lex_cmp (str_bytes m a) (str_bytes m b)).
Proof.
  intros Ha Hb. unfold mxstr_cmp, str_bytes.
  rewrite min_spec, Z2Nat.inj_min, to_int_to_size by lia.
  rewrite <- memcmp_lex. now rewrite !Z2Nat.id by lia.
Qed.

(** On such views it is a total preorder: antisymmetric in sign and
    transitive. *)
Lemma mxstr_cmp_preorder m a b c :
  0 <= len a < 2 ^ 31 -> 0 <= len b < 2 ^ 31 -> 0 <= len c < 2 ^ 31 ->
  Z.sgn (mxstr_cmp m b a) = - Z.sgn (mxstr_cmp m a b) /\
  (mxstr_cmp m a b <= 0 -> mxstr_cmp m b c <= 0 -> mxstr_cmp m a c <= 0).
Proof.
  intros Ha Hb Hc.
  pose proof (mxstr_cmp_lex m a b Ha Hb) as Hab.
  pose proof (mxstr_cmp_lex m b a Hb Ha) as Hba.
  pose proof (mxstr_cmp_lex m b c Hb Hc) as Hbc.
  pose proof (mxstr_cmp_lex m a c Ha Hc) as Hac.
  split.
  - rewrite Hba, Hab. apply lex_cmp_antisym.
  - intros H1 H2.
    pose proof (lex_cmp_trans (str_bytes m a) (str_bytes m b) (str_bytes m c)).
    lia.
Qed.

(** ["ab"] sorts before ["abc"], and ["b"] after ["aa"]. *)
Lemma mxstr_cmp_examples :
  let m := Mem.of_list 100 [97; 98; 99; 98; 97; 97] in
  str_bytes m (Mxstr 100 2) = [97; 98] /\
  str_bytes m (Mxstr 100 3) = [97; 98; 99] /\
  str_bytes m (Mxstr 103 1) = [98] /\
  str_bytes m (Mxstr 104 2) = [97; 97] /\
  mxstr_cmp m (Mxstr 100 2) (Mxstr 100 3) < 0 /\
  mxstr_cmp m (Mxstr 103 1) (Mxstr 104 2) > 0.
Proof. cbv zeta. repeat split. Qed.

(** ** Reading *)

(** C10. On a non-empty view [mxstr_consume_char] stores the first byte in
    the auxiliary variable, also when the match rejects it (then it returns
    false and leaves the view unchanged); the variable keeps its value only
    when the view is empty. *)
Theorem mxstr_consume_char_spec m v c match_ :
  str_ok v ->
  let r := mxstr_consume_char m v c match_ in
  (0 < len v ->
   snd r = Mem.load m (ptr v) /\
   (match_ (Mem.load m (ptr v)) = false ->
    fst (fst r) = false /\ snd (fst r) = v) /\
   (match_ (Mem.load m (ptr v)) = true ->
    fst (fst r) = true /\ snd (fst r) = Mxstr (ptr v + 1) (len v - 1))) /\
  (len v = 0 -> r = (false, v, c)).
Proof.
  intros Hv r. subst r. unfold mxstr_consume_char, mxstr_getchar.
  unfold str_ok, is_size in Hv. split.
  - intros Hpos. destruct (Z.gtb_spec (len v) 0); [|lia].
    destruct (match_ (Mem.load m (ptr v))) eqn:Hm; cbn.
    + split; [reflexivity|]. split; [discriminate|]. intros _.
      rewrite min_spec. replace (Z.min (len v) 1) with 1 by lia.
      split; [reflexivity|]. f_equal.
      apply to_size_sub; unfold is_size; lia.
    + split; [reflexivity|]. split; [tauto | discriminate].
  - intros E. rewrite E. reflexivity.
Qed.

Lemma mxstr_consume_char_spec_witness :
  let m := Mem.of_list 100 [120; 49] in
  let is_digit := fun c => (48 <=? c) && (c <=? 57) in
  mxstr_consume_char m (Mxstr 100 2) 0 is_digit = (false, Mxstr 100 2, 120) /\
  mxstr_consume_char m (Mxstr 100 0) 7 is_digit = (false, Mxstr 100 0, 7).
Proof.
  cbv zeta.
  destruct (mxstr_consume_char_spec (Mem.of_list 100 [120; 49])
              (Mxstr 100 2) 0 (fun c => (48 <=? c) && (c <=? 57)))
    as [H _]; [unfold str_ok, is_size, size_mod; cbn; lia|].
  destruct (mxstr_consume_char_spec (Mem.of_list 100 [120; 49])
              (Mxstr 100 0) 7 (fun c => (48 <=? c) && (c <=? 57)))
    as [_ H0]; [unfold str_ok, is_size, size_mod; cbn; lia|].
  split; [|apply H0; reflexivity].
  destruct H as (Hc & Hrej & _); [cbn; lia|].
  destruct Hrej as [Hf Hs]; [reflexivity|].
  destruct (mxstr_consume_char _ _ _ _) as [[ok v'] c'].
  cbn in Hc, Hf, Hs. subst. reflexivity.
Defined.

(** C8. [mxstr_consume_str] returns true, and advances the view by exactly
    [len p] bytes, if and only if the view begins with the bytes of [p];
    otherwise (also when [p] is longer than the view) it returns false and
    leaves the view as it was. *)
Theorem mxstr_consume_str_spec m v p :
  str_ok v -> str_ok p ->
  let r := mxstr_consume_str m v p in
  let begins :=
    len p <= len v /\
    Mem.read m (ptr v) (Z.to_nat (len p)) = str_bytes m p in
  (fst r = true <-> begins) /\
  (begins -> snd r = Mxstr (ptr v + len p) (len v - len p)) /\
  (~ begins -> fst r = false /\ snd r = v).
Proof.
  intros Hv Hp r begins. subst r begins. unfold mxstr_consume_str.
  rewrite mxstr_substr_eq by (assumption || (unfold is_size, size_mod; lia)).
  unfold str_ok, is_size in *.
  destruct (Z.gtb_spec (len p) (len v)) as [Hgt|Hle].
  { replace (negb (len p <? 0) && negb (0 >? len v) && negb true)
      with false by (now rewrite andb_false_r).
    cbn [fst snd]. repeat split; try tauto; try lia; discriminate. }
  replace (negb (len p <? 0) && negb (0 >? len v) && negb false)
    with true by (symmetry; zbool; cbn; lia || reflexivity).
  replace (Z.min 0 (len v)) with 0 by lia.
  replace (Z.min (Z.max 0 (len p)) (len v) - 0) with (len p) by lia.
  rewrite Z.add_0_r.
  pose proof (mxstr_cmp_same_len m (Mxstr (ptr v) (len p)) p eq_refl)
    as Hcmp.
  unfold str_bytes at 1 in Hcmp. cbn [ptr len] in Hcmp.
  destruct (Z.eqb_spec (mxstr_cmp m (Mxstr (ptr v) (len p)) p) 0)
    as [E|E].
  - unfold mxstr_consume. rewrite min_spec.
    replace (Z.min (len v) (len p)) with (len p) by lia.
    rewrite Z.eqb_refl. cbn [fst snd].
    rewrite to_size_sub by (unfold is_size; lia).
    apply Hcmp in E. repeat split; tauto.
  - cbn [fst snd]. repeat split; try tauto; discriminate.
Qed.

Lemma mxstr_consume_str_spec_witness :
  let m := Mem.of_list 100 [60; 104; 62; 114; 60; 104; 62] in
  mxstr_consume_str m (Mxstr 100 4) (Mxstr 104 3) = (true, Mxstr 103 1).
Proof.
  cbv zeta.
  destruct (mxstr_consume_str_spec (Mem.of_list 100 [60; 104; 62; 114; 60; 104; 62])
              (Mxstr 100 4) (Mxstr 104 3)) as (Hok & Hadv & _).
  - unfold str_ok, is_size, size_mod; cbn; lia.
  - unfold str_ok, is_size, size_mod; cbn; lia.
  - assert (len (Mxstr 104 3) <= len (Mxstr 100 4) /\
            Mem.read (Mem.of_list 100 [60; 104; 62; 114; 60; 104; 62])
              (ptr (Mxstr 100 4)) (Z.to_nat (len (Mxstr 104 3))) =
            str_bytes (Mem.of_list 100 [60; 104; 62; 114; 60; 104; 62])
              (Mxstr 104 3)) as Hb by (split; [cbn; lia | reflexivity]).
    apply Hok in Hb as Ht. apply Hadv in Hb as Hs.
    destruct (mxstr_consume_str _ _ _) as [ok v'].
    cbn in Ht, Hs. subst. reflexivity.
Defined.

(** ** The state monad *)

Lemma bind_Some {A B} (x : M A) (k : A -> M B) s r :
  (x ≫= k) s = Some r <-> exists a s1, x s = Some (a, s1) /\ k a s1 = Some r.
Proof.
  unfold mbind, M_bind. destruct (x s) as [[a s1]|].
  - split; [eauto|]. intros (a' & s' & E & H). now inversion E; subst.
  - split; [discriminate|]. intros (a' & s' & E & H). discriminate.
Qed.

Lemma preserves_ret {A} (a : A) : preserves (mret a).
Proof. intros s a' s' H E. unfold mret, M_ret in E. now inversion E; subst. Qed.

Lemma preserves_bind {A B} (x : M A) (k : A -> M B) :
  preserves x -> (forall a, preserves (k a)) -> preserves (x ≫= k).
Proof.
  intros Hx Hk s b s' H E. apply bind_Some in E as (a & s1 & E1 & E2).
  eapply Hk; [|exact E2]. eapply Hx; eassumption.
Qed.

(** ** The buffer invariant *)

Lemma advances_consume dest n :
  is_size (len dest) -> 0 <= n -> advances dest (fst (mxstr_consume dest n)).
Proof.
  intros Hd Hn. unfold mxstr_consume. rewrite min_spec. cbn [fst].
  unfold is_size in Hd. exists (Z.min (len dest) n). cbn [ptr len].
  rewrite to_size_sub by (unfold is_size; lia). lia.
Qed.

Lemma advances_write m dest src :
  is_size (len dest) -> 0 <= len src ->
  advances dest (snd (fst (mxstr_write m dest src))).
Proof. intros Hd Hn. apply (advances_consume dest (len src) Hd Hn). Qed.

Lemma advances_write_chars m dest c n :
  is_size (len dest) -> 0 <= n ->
  advances dest (snd (fst (mxstr_write_chars m dest c n))).
Proof. intros Hd Hn. apply (advances_consume dest n Hd Hn). Qed.

Lemma advances_putc m dest c :
  is_size (len dest) -> advances dest (snd (fst (mxstr_putc m dest c))).
Proof.
  intros Hd. unfold mxstr_putc, mxstr_empty.
  destruct (Z.eqb_spec (len dest) 0) as [E|E]; cbn [negb snd fst].
  - exists 0. lia.
  - apply advances_consume; [assumption|lia].
Qed.

Lemma preserves_on_available {A} (f : Mem.t -> mxstr_t -> Mem.t * mxstr_t * A) :
  (forall m dest, is_size (len dest) -> advances dest (snd (fst (f m dest)))) ->
  preserves (on_available f).
Proof.
  intros Hf s a s' (Hb & Hi & Ha & Hp) E. unfold on_available in E.
  specialize (Hf (mem (st_heap s)) (available (st_buf s))).
  destruct (f _ _) as [[m dest] r]. inversion E; subst; clear E.
  destruct Hf as (size & Hs & Hptr & Hlen);
    [unfold is_size in *; lia|].
  cbn [fst snd] in *. unfold buf_inv, is_size in *.
  cbn [st_buf buf available init]. lia.
Qed.

(** The reference [mxbuf_require] and [mxbuf_trim] store in [available]: the
    clamped range is a suffix of the new storage. *)
Lemma buf_inv_substr q n l i :
  is_size n -> is_size l -> is_size (len i) ->
  buf_inv (Mxbuf (mxstr q n) (snd (mxstr_substr (mxstr q n) l n)) i).
Proof.
  intros Hn Hl Hi. unfold mxstr.
  rewrite mxstr_substr_eq by assumption. cbn [snd ptr len].
  unfold buf_inv, is_size in *. cbn [buf available init ptr len]. lia.
Qed.

Lemma mxstr_substr_offset_Some str substr idx :
  mxstr_substr_offset str substr = Some idx ->
  idx = to_size (ptr substr - ptr str) /\ 0 <= idx <= len str.
Proof.
  unfold mxstr_substr_offset, to_size. intros H.
  destruct (Z.leb_spec ((ptr substr - ptr str) mod size_mod) (len str));
    [|discriminate].
  inversion H; subst. split; [reflexivity|]. split; [|assumption].
  apply Z.mod_pos_bound. reflexivity.
Qed.

(** Under the invariant the assertion of [mxstr_substr_offset] holds and the
    offset is the number of bytes written. *)
Lemma mxstr_substr_offset_inv b :
  buf_inv b -> mxstr_substr_offset (buf b) (available b) = Some (written b).
Proof.
  intros (Hb & _ & Ha & Hp). unfold mxstr_substr_offset, written. rewrite Hp.
  unfold is_size in Hb.
  rewrite to_size_ptr_diff by (unfold is_size; lia).
  destruct (Z.leb_spec (len (buf b) - len (available b)) (len (buf b)));
    [reflexivity|lia].
Qed.

Lemma mxutil_size_p2_range clz0 x : 0 <= mxutil_size_p2 clz0 x < u32_mod.
Proof. apply Z.mod_pos_bound. reflexivity. Qed.

Lemma preserves_require clz0 size : preserves (mxbuf_require clz0 size).
Proof.
  intros s a s' Hinv E. unfold mxbuf_require in E.
  apply bind_Some in E as (b & s1 & E1 & E).
  inversion E1; subst; clear E1.
  destruct (len (available (st_buf s1)) <? size); [|now inversion E; subst].
  apply bind_Some in E as (l & s2 & E1 & E).
  unfold assert_some in E1.
  destruct (mxstr_substr_offset _ _) as [l'|] eqn:Ho; [|discriminate].
  inversion E1; subst; clear E1.
  apply mxstr_substr_offset_Some in Ho as [_ Hl].
  apply bind_Some in E as (q & s3 & E1 & E).
  unfold realloc_ in E1.
  destruct (mxutil_realloc _ _ _) as [[h' q']|]; [|discriminate].
  inversion E1; subst; clear E1.
  apply bind_Some in E as (u & s4 & E1 & E).
  inversion E1; subst; clear E1. inversion E; subst; clear E.
  cbn [st_buf buf available init].
  destruct Hinv as (Hb & Hi & _).
  apply buf_inv_substr; [| |exact Hi].
  - rewrite max_spec.
    pose proof (mxutil_size_p2_range clz0 (to_u32 (len (buf (st_buf s2))))).
    pose proof (mxutil_size_p2_range clz0 (to_u32 size)).
    unfold is_size, size_mod, u32_mod in *. lia.
  - unfold is_size in *. lia.
Qed.

Lemma preserves_trim : preserves mxbuf_trim.
Proof.
  intros s a s' Hinv E. unfold mxbuf_trim in E.
  apply bind_Some in E as (b & s1 & E1 & E).
  inversion E1; subst; clear E1.
  destruct (negb _); [|now inversion E; subst].
  apply bind_Some in E as (l & s2 & E1 & E).
  unfold assert_some in E1.
  destruct (mxstr_substr_offset _ _) as [l'|] eqn:Ho; [|discriminate].
  inversion E1; subst; clear E1.
  apply mxstr_substr_offset_Some in Ho as [_ Hl].
  apply bind_Some in E as (q & s3 & E1 & E).
  unfold realloc_ in E1.
  destruct (mxutil_realloc _ _ _) as [[h' q']|]; [|discriminate].
  inversion E1; subst; clear E1.
  apply bind_Some in E as (u & s4 & E1 & E).
  inversion E1; subst; clear E1. inversion E; subst; clear E.
  cbn [st_buf buf available init].
  destruct Hinv as (Hb & Hi & _).
  assert (is_size l) by (unfold is_size in *; lia).
  apply buf_inv_substr; assumption.
Qed.

Lemma preserves_reset : preserves mxbuf_reset.
Proof.
  intros s a s' (Hb & Hi & _) E. unfold mxbuf_reset in E.
  apply bind_Some in E as (b & s1 & E1 & E).
  inversion E1; subst; clear E1. inversion E; subst; clear E.
  unfold buf_inv, is_size in *. cbn [st_buf buf available init]. lia.
Qed.

Lemma preserves_free : preserves mxbuf_free.
Proof.
  intros s a s' (Hb & Hi & _) E. unfold mxbuf_free in E.
  apply bind_Some in E as (b & s1 & E1 & E).
  inversion E1; subst; clear E1.
  apply bind_Some in E as (u & s2 & E1 & E).
  assert (st_buf s2 = st_buf s1) as Hs.
  { destruct (negb _).
    - unfold free_ in E1. destruct (heap_free _ _); [|discriminate].
      now inversion E1; subst.
    - now inversion E1; subst. }
  apply bind_Some in E as (u' & s3 & E2 & E).
  inversion E2; subst; clear E2. inversion E; subst; clear E.
  unfold buf_inv, is_size in *. cbn [st_buf buf available init].
  rewrite Hs. lia.
Qed.

Lemma preserves_write clz0 str : 0 <= len str -> preserves (mxbuf_write clz0 str).
Proof.
  intros H. apply preserves_bind; [apply preserves_require|]. intros _.
  apply preserves_on_available. intros m dest Hd. now apply advances_write.
Qed.

Lemma preserves_write_chars clz0 c n :
  0 <= n -> preserves (mxbuf_write_chars clz0 c n).
Proof.
  intros H. apply preserves_bind; [apply preserves_require|]. intros _.
  apply preserves_on_available. intros m dest Hd.
  now apply advances_write_chars.
Qed.

Lemma preserves_putc clz0 c : preserves (mxbuf_putc clz0 c).
Proof.
  apply preserves_bind; [apply preserves_require|]. intros _.
  apply preserves_on_available. intros m dest Hd. now apply advances_putc.
Qed.

Lemma preserves_put_utf8 clz0 c : preserves (mxbuf_put_utf8 clz0 c).
Proof.
  unfold mxbuf_put_utf8.
  repeat match goal with |- context [?a <? ?b] => destruct (a <? b) end;
    repeat (apply preserves_bind; [apply preserves_putc|intros _]);
    apply preserves_ret.
Qed.

Lemma buf_inv_create p len_ s u s' :
  is_size len_ -> mxbuf_create p len_ s = Some (u, s') -> buf_inv (st_buf s').
Proof.
  intros H E. inversion E; subst; clear E.
  unfold buf_inv, is_size in *. cbn. lia.
Qed.

(** Under the invariant [mxbuf_str] returns the written prefix of the
    storage. *)
Lemma mxbuf_str_inv s :
  buf_inv (st_buf s) ->
  mxbuf_str s =
    Some (Mxstr (ptr (buf (st_buf s))) (written (st_buf s)), s) /\
  0 <= written (st_buf s) <= len (buf (st_buf s)).
Proof.
  intros Hinv. unfold mxbuf_str, mbind, M_bind, get_buffer, assert_some,
    mxstr_prefix.
  rewrite (mxstr_substr_offset_inv _ Hinv). cbn.
  split; [reflexivity|]. destruct Hinv as (_ & _ & H & _).
  unfold written. lia.
Qed.

(** Every operation keeps (and [mxbuf_create] establishes) the invariant. *)
Lemma run_op_inv clz0 op s u s' :
  op_ok op -> op_pre op (st_buf s) ->
  run_op clz0 op s = Some (u, s') -> buf_inv (st_buf s').
Proof.
  intros Hok Hpre E.
  destruct op; cbn [run_op op_ok op_pre] in *.
  - eapply buf_inv_create; eassumption.
  - eapply preserves_reset; eassumption.
  - eapply preserves_free; eassumption.
  - eapply preserves_trim; eassumption.
  - eapply preserves_require; eassumption.
  - refine (preserves_bind _ _ (preserves_write clz0 str _) _ s u s' Hpre E).
    + unfold str_ok, is_size in Hok. lia.
    + intros _. apply preserves_ret.
  - refine (preserves_bind _ _ (preserves_putc clz0 c) _ s u s' Hpre E).
    intros _. apply preserves_ret.
  - refine (preserves_bind _ _ (preserves_put_utf8 clz0 c) _ s u s' Hpre E).
    intros _. apply preserves_ret.
  - refine (preserves_bind _ _ (preserves_write_chars clz0 c n _) _ s u s' Hpre E).
    + unfold is_size in Hok. lia.
    + intros _. apply preserves_ret.
Qed.

(** Hence the invariant holds in every state reached from [mxbuf_create] by
    any sequence of operations. *)
Lemma run_ops_inv clz0 ops s u s' :
  Forall op_ok ops -> buf_inv (st_buf s) ->
  run_ops clz0 ops s = Some (u, s') -> buf_inv (st_buf s').
Proof.
  intros Hok. revert s. induction Hok as [|op ops Hop Hops IH]; intros s Hinv E.
  - now inversion E; subst.
  - cbn [run_ops] in E. apply bind_Some in E as (u1 & s1 & E1 & E2).
    apply (IH s1); [|exact E2].
    eapply run_op_inv; [exact Hop| |exact E1].
    destruct op; exact Hinv || exact I.
Qed.

Lemma mxbuf_invariant_reachable clz0 p len_ ops s u s' :
  is_size len_ -> Forall op_ok ops ->
  run_ops clz0 (OpCreate p len_ :: ops) s = Some (u, s') ->
  buf_inv (st_buf s').
Proof.
  intros Hl Hok E. cbn [run_ops] in E.
  apply bind_Some in E as (u1 & s1 & E1 & E2).
  apply (run_ops_inv clz0 ops s1 u s' Hok); [|exact E2].
  now apply (run_op_inv clz0 (OpCreate p len_) s u1 s1).
Qed.

(** C9. Every buffer operation keeps the invariant: [available] is a suffix
    of [buf], that is [ptr available = ptr buf + (len buf - len available)]
    with [len available <= len buf]; hence [mxbuf_str] returns a prefix of
    the storage that lies within it. *)
Theorem mxbuf_invariant_preserved clz0 op s s' :
  op_ok op -> op_pre op (st_buf s) ->
  run_op clz0 op s = Some (tt, s') ->
  let b' := st_buf s' in
  buf_inv b' /\
  len (available b') <= len (buf b') /\
  ptr (available b') = ptr (buf b') + (len (buf b') - len (available b')) /\
  mxbuf_str s' = Some (Mxstr (ptr (buf b')) (written b'), s') /\
  0 <= written b' <= len (buf b').
Proof.
  intros Hok Hpre E b'. subst b'.
  pose proof (run_op_inv clz0 op s tt s' Hok Hpre E) as Hinv.
  split; [exact Hinv|].
  destruct (mxbuf_str_inv s' Hinv) as [Hstr Hw].
  destruct Hinv as (_ & _ & Ha & Hp).
  repeat split; (assumption || lia).
Qed.

Lemma mxbuf_invariant_preserved_witness :
  let s :=
    State (Heap (Mem.of_list 100 [97; 98]) ∅ 1000)
          (Mxbuf (Mxstr 500 1) (Mxstr 500 1) (Mxstr 500 1)) in
  exists s',
    run_op 32 (OpWrite (Mxstr 100 2)) s = Some (tt, s') /\
    st_buf s' = Mxbuf (Mxstr 1000 4) (Mxstr 1002 2) (Mxstr 500 1) /\
    buf_inv (st_buf s').
Proof.
  cbv zeta. eexists. split; [vm_compute; reflexivity|].
  split; [reflexivity|].
  eapply (mxbuf_invariant_preserved 32 (OpWrite (Mxstr 100 2))
            (State (Heap (Mem.of_list 100 [97; 98]) ∅ 1000)
                   (Mxbuf (Mxstr 500 1) (Mxstr 500 1) (Mxstr 500 1)))).
  - unfold op_ok, str_ok, is_size, size_mod. cbn. lia.
  - unfold op_pre, buf_inv, is_size, size_mod. cbn. lia.
  - vm_compute. reflexivity.
Defined.

(** ** Powers of two *)

Lemma next_pow2_gt_spec x :
  0 < x ->
  x < next_pow2_gt x /\
  next_pow2_gt x <= 2 * x /\
  forall k, 0 <= k -> x < 2 ^ k -> next_pow2_gt x <= 2 ^ k.
Proof.
  intros Hx. unfold next_pow2_gt.
  destruct (Z.log2_spec x Hx) as [Hlo Hhi].
  pose proof (Z.log2_nonneg x) as Hnn.
  change (Z.succ (Z.log2 x)) with (Z.log2 x + 1) in Hhi.
  split; [exact Hhi|]. split.
  - rewrite Z.pow_add_r by lia. lia.
  - intros k Hk Hlt. apply Z.pow_le_mono_r; [lia|].
    destruct (Z_lt_le_dec k (Z.log2 x + 1)) as [Hc|Hc]; [|exact Hc].
    assert (2 ^ k <= 2 ^ Z.log2 x) by (apply Z.pow_le_mono_r; lia). lia.
Qed.

Lemma next_pow2_ge_spec x :
  0 < x ->
  x <= next_pow2_ge x /\
  forall k, 0 <= k -> x <= 2 ^ k -> next_pow2_ge x <= 2 ^ k.
Proof.
  intros Hx. unfold next_pow2_ge.
  destruct (Z.eq_dec x 1) as [->|Hne].
  - cbn. split; [lia|]. intros k Hk _.
    change 1 with (2 ^ 0). apply Z.pow_le_mono_r; lia.
  - destruct (Z.log2_up_spec x) as [Hlo Hhi]; [lia|].
    split; [exact Hhi|]. intros k Hk Hle.
    apply Z.pow_le_mono_r; [lia|].
    destruct (Z_lt_le_dec k (Z.log2_up x)) as [Hc|Hc]; [|exact Hc].
    assert (2 ^ k <= 2 ^ Z.pred (Z.log2_up x))
      by (apply Z.pow_le_mono_r; lia). lia.
Qed.

(** On [0 < x < 2^31] no conversion wraps and [mxutil_size_p2] is the
    smallest power of two strictly greater than [x]. *)
Lemma mxutil_size_p2_pos clz0 x :
  0 < x < 2 ^ 31 -> mxutil_size_p2 clz0 x = next_pow2_gt x.
Proof.
  intros Hx. unfold mxutil_size_p2, builtin_clz, next_pow2_gt.
  destruct (Z.eqb_spec x 0); [lia|].
  pose proof (Z.log2_nonneg x) as Hnn.
  assert (Z.log2 x < 31) as Hlt by (apply Z.log2_lt_pow2; lia).
  replace (32 - (31 - Z.log2 x)) with (Z.log2 x + 1) by lia.
  rewrite Z.shiftl_1_l. apply to_u32_small. unfold u32_mod.
  split; [apply Z.pow_nonneg; lia|].
  apply Z.pow_lt_mono_r; lia.
Qed.

Lemma next_pow2_gt_bound x : 0 < x < 2 ^ 31 -> 2 <= next_pow2_gt x <= 2 ^ 31.
Proof.
  intros Hx. unfold next_pow2_gt.
  pose proof (Z.log2_nonneg x) as Hnn.
  assert (Z.log2 x < 31) as Hlt by (apply Z.log2_lt_pow2; lia).
  split.
  - change 2 with (2 ^ 1) at 1. apply Z.pow_le_mono_r; lia.
  - apply Z.pow_le_mono_r; lia.
Qed.

(** ** Growing a buffer *)

Lemma read_memcpy m dst src k n :
  Z.of_nat n <= k ->
  Mem.read (Mem.memcpy m dst src k) dst n = Mem.read m src n.
Proof.
  intros H. unfold Mem.read. apply map_ext_in. intros i Hi.
  apply in_seq in Hi. unfold Mem.memcpy.
  destruct (Z.leb_spec dst (dst + Z.of_nat i)); [|lia].
  destruct (Z.ltb_spec (dst + Z.of_nat i) (dst + k)); [|lia].
  cbn. f_equal. lia.
Qed.

(** [mxbuf_require] when the space is there: nothing happens. *)
Lemma mxbuf_require_enough clz0 size s :
  size <= len (available (st_buf s)) ->
  mxbuf_require clz0 size s = Some (tt, s).
Proof.
  intros H. unfold mxbuf_require, mbind, M_bind, get_buffer.
  destruct (Z.ltb_spec (len (available (st_buf s))) size); [lia|reflexivity].
Qed.

(** [mxbuf_require] when the buffer has to grow, under the invariant. *)
Lemma mxbuf_require_grow clz0 size s :
  let b := st_buf s in
  let new_size :=
    Z.max (mxutil_size_p2 clz0 (to_u32 (len (buf b))))
          (mxutil_size_p2 clz0 (to_u32 size)) in
  let p := if negb (ptr (buf b) =? ptr (init b)) then ptr (buf b) else NULL in
  let l := Z.min (written b) new_size in
  buf_inv b -> len (available b) < size ->
  mxbuf_require clz0 size s =
    match mxutil_realloc (st_heap s) p new_size with
    | Some (h, q) =>
        Some (tt, State h (Mxbuf (Mxstr q new_size)
                                 (Mxstr (q + l) (new_size - l)) (init b)))
    | None => None
    end.
Proof.
  intros b new_size p l Hinv Hlt. subst b new_size p l.
  unfold mxbuf_require, mbind, M_bind, get_buffer, assert_some, realloc_.
  destruct (Z.ltb_spec (len (available (st_buf s))) size); [|lia].
  rewrite (mxstr_substr_offset_inv _ Hinv), max_spec.
  destruct (mxutil_realloc _ _ _) as [[h q]|]; [|reflexivity].
  unfold set_buf, set_available, mxstr. cbn [st_heap st_buf buf available init].
  rewrite mxstr_substr_eq.
  - cbn [snd ptr len]. do 4 f_equal. f_equal. lia.
  - pose proof (mxutil_size_p2_range clz0 (to_u32 (len (buf (st_buf s))))).
    pose proof (mxutil_size_p2_range clz0 (to_u32 size)).
    unfold str_ok, is_size, size_mod, u32_mod in *. cbn [len]. lia.
  - destruct Hinv as (H0 & _ & H1 & _). unfold is_size, written in *. lia.
  - pose proof (mxutil_size_p2_range clz0 (to_u32 (len (buf (st_buf s))))).
    pose proof (mxutil_size_p2_range clz0 (to_u32 size)).
    unfold is_size, size_mod, u32_mod in *. lia.
Qed.

(** The effect of a growth step on a buffer that agrees with the allocator:
    the storage moves to a fresh block of [new_size] bytes at [brk], the
    memory below [brk] is untouched, and the bytes written are carried over
    when the old storage was a heap block. *)
Lemma mxbuf_require_grow_ok clz0 size s :
  let b := st_buf s in
  let h := st_heap s in
  let new_size :=
    Z.max (mxutil_size_p2 clz0 (to_u32 (len (buf b))))
          (mxutil_size_p2 clz0 (to_u32 size)) in
  buf_inv b -> heap_ok h b -> len (available b) < size ->
  new_size <> 0 -> written b <= new_size ->
  exists s',
    mxbuf_require clz0 size s = Some (tt, s') /\
    st_buf s' =
      Mxbuf (Mxstr (brk h) new_size)
            (Mxstr (brk h + written b) (new_size - written b)) (init b) /\
    brk (st_heap s') = brk h + new_size /\
    heap_ok (st_heap s') (st_buf s') /\
    buf_inv (st_buf s') /\
    owned (st_buf s') /\
    (forall a, a < brk h -> mem (st_heap s') a = mem h a) /\
    (owned b \/ written b = 0 -> contents s' = contents s).
Proof.
  intros b h new_size Hinv Hheap Hlt Hnz Hw.
  pose proof (mxbuf_require_grow clz0 size s Hinv Hlt) as Hreq.
  cbv zeta in Hreq. fold b h new_size in Hreq.
  replace (Z.min (written b) new_size) with (written b) in Hreq by lia.
  assert (0 < new_size) as Hpos.
  { pose proof (mxutil_size_p2_range clz0 (to_u32 (len (buf b)))).
    pose proof (mxutil_size_p2_range clz0 (to_u32 size)). lia. }
  destruct Hheap as (Hbrk & Hinit & Hown).
  assert (exists m',
    mxutil_realloc h
      (if negb (ptr (buf b) =? ptr (init b)) then ptr (buf b) else NULL)
      new_size
    = Some (Heap m' (<[brk h := new_size]>
                       (if negb (ptr (buf b) =? ptr (init b))
                        then delete (ptr (buf b)) (blocks h)
                        else blocks h))
                 (brk h + new_size), brk h) /\
    (forall a, a < brk h -> m' a = mem h a) /\
    (owned b \/ written b = 0 ->
     Mem.read m' (brk h) (Z.to_nat (written b)) = contents s))
    as (m' & Hre & Hlow & Hcont).
  { unfold mxutil_realloc.
    destruct (Z.eqb_spec new_size 0) as [|_]; [lia|].
    destruct (Z.eqb_spec (ptr (buf b)) (ptr (init b))) as [Heq|Hne];
      cbn [negb].
    - exists (mem h). rewrite Z.eqb_refl. split; [reflexivity|].
      split; [reflexivity|]. intros [Ho|Hz]; [contradiction|].
      unfold contents. fold b. rewrite Hz. reflexivity.
    - destruct (Hown Hne) as (Hnn & Hblk & Hend).
      destruct (Z.eqb_spec (ptr (buf b)) NULL) as [|_]; [contradiction|].
      rewrite Hblk. cbn.
      exists (Mem.memcpy (mem h) (brk h) (ptr (buf b))
                (Z.min (len (buf b)) new_size)).
      split; [reflexivity|]. split.
      + intros a Ha. unfold Mem.memcpy.
        destruct (Z.leb_spec (brk h) a); [lia|reflexivity].
      + intros _. unfold contents. fold b h. apply read_memcpy.
        destruct Hinv as (_ & _ & Hav & _). unfold written in *. lia. }
  rewrite Hre in Hreq. eexists. split; [exact Hreq|].
  cbn [st_buf st_heap brk mem blocks].
  split; [reflexivity|]. split; [reflexivity|].
  assert (owned (Mxbuf (Mxstr (brk h) new_size)
                       (Mxstr (brk h + written b) (new_size - written b))
                       (init b))) as Ho'
    by (unfold owned; cbn [buf init ptr]; lia).
  split; [|split; [|split; [exact Ho'|split; [exact Hlow|]]]].
  - unfold heap_ok. cbn [brk blocks buf init ptr len].
    split; [lia|]. split; [lia|]. intros _.
    split; [unfold NULL; lia|]. split; [apply lookup_insert_eq|lia].
  - destruct Hinv as (H0 & Hi & Hav & _).
    unfold buf_inv, is_size, size_mod, written in *.
    cbn [buf available init ptr len].
    pose proof (mxutil_size_p2_range clz0 (to_u32 (len (buf b)))).
    pose proof (mxutil_size_p2_range clz0 (to_u32 size)).
    unfold u32_mod in *. lia.
  - intros H. rewrite <- (Hcont H). unfold contents, written.
    cbn [st_heap st_buf mem buf available ptr len]. f_equal.
    f_equal. unfold written. lia.
Qed.

Lemma pow2_max a b : 0 <= a -> 0 <= b -> Z.max (2 ^ a) (2 ^ b) = 2 ^ Z.max a b.
Proof.
  intros Ha Hb. destruct (Z_le_gt_dec a b) as [H|H].
  - rewrite (Z.max_r a b) by lia. apply Z.max_r. apply Z.pow_le_mono_r; lia.
  - rewrite (Z.max_l a b) by lia. apply Z.max_l. apply Z.pow_le_mono_r; lia.
Qed.

(** The powers of two [mxbuf_require] chooses are strictly greater, as
    [mxutil_size_p2] documents: a 4-byte buffer with nothing written, asked
    for 8 bytes, grows to 16 bytes, where the larger of the next powers of
    two >= the capacity (4) and >= the required total size (8) is 8. *)
Lemma mxbuf_require_doubles_example :
  let s :=
    State (Heap (fun _ => 0) ∅ 1000)
          (Mxbuf (Mxstr 500 4) (Mxstr 500 4) (Mxstr 500 4)) in
  len (available (st_buf s)) < 8 /\
  (exists s',
     mxbuf_require 32 8 s = Some (tt, s') /\ len (buf (st_buf s')) = 16) /\
  spec_new_capacity (len (buf (st_buf s))) (written (st_buf s)) 8 = 8 /\
  16 <> spec_new_capacity (len (buf (st_buf s))) (written (st_buf s)) 8.
Proof.
  cbv zeta. split; [cbn; lia|]. split.
  - eexists. split; [vm_compute; reflexivity|reflexivity].
  - split; [reflexivity|discriminate].
Qed.

(** What a growth step does provide.  Whenever more space is asked for than
    is available (the capacity and the request being below 2^31),
    [mxbuf_require] moves the buffer to new storage whose size is at least
    the smallest power of two strictly greater than the number of bytes asked
    for and, for a buffer of non-zero capacity, at least the smallest power
    of two strictly greater than its capacity, and is then a power of two;
    the number of bytes written is unchanged, and the bytes written are found
    at the start of the new storage when the old storage was allocated by
    the buffer. *)
Lemma mxbuf_require_grows clz0 size s :
  let b := st_buf s in
  buf_inv b -> heap_ok (st_heap s) b ->
  len (available b) < size -> len (buf b) < 2 ^ 31 -> size < 2 ^ 31 ->
  exists s',
    mxbuf_require clz0 size s = Some (tt, s') /\
    let b' := st_buf s' in
    size < next_pow2_gt size <= len (buf b') /\
    (0 < len (buf b) ->
     len (buf b) < next_pow2_gt (len (buf b)) <= len (buf b') /\
     exists k, 0 <= k /\ len (buf b') = 2 ^ k) /\
    (0 < len (buf b) -> written b = 0 ->
     len (buf b') =
       Z.max (next_pow2_gt (len (buf b))) (next_pow2_gt (written b + size))) /\
    written b' = written b /\
    init b' = init b /\
    buf_inv b' /\
    (owned b -> contents s' = contents s).
Proof.
  intros b Hinv Hheap Hlt Hcap Hsize.
  pose proof Hinv as (Hb & _ & Hav & _). fold b in Hb, Hav.
  unfold is_size in Hb.
  assert (0 < size) as Hpos by lia.
  pose proof (mxutil_size_p2_pos clz0 size (conj Hpos Hsize)) as Hps.
  pose proof (next_pow2_gt_bound size (conj Hpos Hsize)) as Hbs.
  pose proof (next_pow2_gt_spec size Hpos) as (Hgs & _).
  pose proof (mxutil_size_p2_range clz0 (to_u32 (len (buf b)))) as Hrc.
  assert (to_u32 size = size) as Hus
    by (apply to_u32_small; unfold u32_mod; lia).
  assert (to_u32 (len (buf b)) = len (buf b)) as Huc
    by (apply to_u32_small; unfold u32_mod; lia).
  destruct (mxbuf_require_grow_ok clz0 size s Hinv Hheap Hlt)
    as (s' & Hreq & Hbuf & _ & _ & Hinv' & _ & _ & Hcont).
  { fold b. rewrite Hus, Hps. lia. }
  { fold b. rewrite Hus, Hps, Huc.
    destruct (Z.eq_dec (len (buf b)) 0) as [Hz|Hnz].
    - unfold written. fold b. lia.
    - rewrite mxutil_size_p2_pos by lia.
      pose proof (next_pow2_gt_spec (len (buf b))) as (Hg & _); [lia|].
      unfold written. fold b. lia. }
  fold b in Hbuf. rewrite Hus, Hps, Huc in Hbuf.
  exists s'. split; [exact Hreq|]. cbv zeta. rewrite Hbuf.
  cbn [buf available init ptr len].
  split; [lia|]. split.
  - intros Hcpos. rewrite mxutil_size_p2_pos by lia.
    pose proof (next_pow2_gt_spec (len (buf b)) Hcpos) as (Hg & _).
    split; [lia|]. unfold next_pow2_gt.
    pose proof (Z.log2_nonneg (len (buf b))).
    pose proof (Z.log2_nonneg size).
    rewrite pow2_max by lia. eexists. split; [|reflexivity]. lia.
  - split; [|split; [unfold written; cbn [buf available len]; lia|]].
    { intros Hcpos Hw0. rewrite Hw0, Z.add_0_l.
      now rewrite mxutil_size_p2_pos by lia. }
    split; [reflexivity|]. split.
    + rewrite <- Hbuf. exact Hinv'.
    + intros Ho. apply Hcont. now left.
Qed.

Lemma mxbuf_require_grows_example :
  let s :=
    State (Heap (Mem.of_list 1000 [97; 98; 99]) {[ 1000 := 4 ]} 1004)
          (Mxbuf (Mxstr 1000 4) (Mxstr 1003 1) (Mxstr 500 1)) in
  exists s',
    mxbuf_require 32 5 s = Some (tt, s') /\
    8 <= len (buf (st_buf s')) /\
    contents s' = [97; 98; 99].
Proof.
  cbv zeta.
  destruct (mxbuf_require_grows 32 5
              (State (Heap (Mem.of_list 1000 [97; 98; 99]) {[ 1000 := 4 ]} 1004)
                     (Mxbuf (Mxstr 1000 4) (Mxstr 1003 1) (Mxstr 500 1))))
    as (s' & Hreq & Hsz & Hcap & _ & _ & _ & _ & Hcont).
  - unfold buf_inv, is_size, size_mod. cbn. lia.
  - unfold heap_ok, owned, NULL. cbn. repeat split; lia || reflexivity.
  - cbn. lia.
  - cbn. lia.
  - lia.
  - exists s'. split; [exact Hreq|]. split.
    + change (next_pow2_gt 5) with 8 in Hsz. lia.
    + rewrite Hcont; [reflexivity|]. unfold owned. cbn. lia.
Qed.

(** C2. The claim (the new capacity covers the bytes written plus the bytes
    asked for, and the bytes written are kept) does not hold of the code.
    [mxbuf_require] computes [new_size] from the capacity and from [size]
    alone: a buffer of 4 bytes that owns its storage and holds ["ab"], asked
    for 7 more bytes, grows to 8 bytes and has 6 available, where 9 are
    needed and the claim's capacity is 16 (with powers of two >= as with
    powers of two strictly greater).  And when the storage is still the
    range of the creator, the new block comes from [realloc(NULL, ...)]: a
    full 4-byte range holding ["abcd"], asked for 1 more byte, is replaced
    by 8 bytes that start with what the fresh block held (zero here). *)
Theorem mxbuf_require_short_capacity clz0 :
  let s := State (Heap (Mem.of_list 100 [97; 98; 99; 100]) ∅ 1000)
                 (Mxbuf (Mxstr 0 0) (Mxstr 0 0) (Mxstr 0 0)) in
  let grow p len_ str size :=
    mxbuf_create p len_;;
    n ← mxbuf_write clz0 str;
    b0 ← get_buffer;
    l0 ← mxbuf_bytes;
    mxbuf_require clz0 size;;
    b1 ← get_buffer;
    l1 ← mxbuf_bytes;
    mret (n, (len (buf b0), len (available b0), l0),
          (len (buf b1), len (available b1), l1)) in
  result (grow 500 1 (Mxstr 100 2) 7) s =
    Some (2, (4, 2, [97; 98]), (8, 6, [97; 98])) /\
  spec_new_capacity 4 2 7 = 16 /\
  Z.max (next_pow2_gt 4) (next_pow2_gt (2 + 7)) = 16 /\
  result (grow 500 4 (Mxstr 100 4) 1) s =
    Some (4, (4, 0, [97; 98; 99; 100]), (8, 4, [0; 0; 0; 0])).
Proof.
  cbv zeta. split; [vm_compute; reflexivity|].
  split; [reflexivity|]. split; [reflexivity|]. vm_compute; reflexivity.
Qed.

(** ** Writing to a buffer *)

(** C1. The claim (every write appends all its bytes and returns their
    number) does not hold of the code: [mxbuf_require] sizes the new storage
    from the capacity and from the bytes asked for, not from their sum with
    the bytes already written.  A buffer created over a 1-byte range takes
    ["ab"] (growing to 4 bytes); the write of the 7 bytes ["cdefghi"] then
    grows it to 8 bytes, stores 6 bytes and returns 6.  The same happens over
    a zero-length range (shown where [__builtin_clz(0)] yields 32). *)
Theorem mxbuf_write_short_count clz0 :
  let m := Mem.of_list 100 [97; 98; 99; 100; 101; 102; 103; 104; 105] in
  let s := State (Heap m ∅ 1000)
                 (Mxbuf (Mxstr 0 0) (Mxstr 0 0) (Mxstr 0 0)) in
  let writes clz p len_ :=
    mxbuf_create p len_;;
    n1 ← mxbuf_write clz (Mxstr 100 2);
    n2 ← mxbuf_write clz (Mxstr 102 7);
    l ← mxbuf_bytes;
    mret (n1, n2, l) in
  str_bytes m (Mxstr 100 2) ++ str_bytes m (Mxstr 102 7) =
    [97; 98; 99; 100; 101; 102; 103; 104; 105] /\
  result (writes clz0 500 1) s =
    Some (2, 6, [97; 98; 99; 100; 101; 102; 103; 104]) /\
  result (writes 32 NULL 0) s =
    Some (2, 6, [97; 98; 99; 100; 101; 102; 103; 104]).
Proof. cbv zeta. split; [reflexivity|]. split; vm_compute; reflexivity. Qed.

(** C7. The claim ([mxbuf_putc] always returns true and appends the byte)
    does not hold of the code.  On a full buffer of 2^32 + 8 bytes the
    capacity is converted to [uint32_t] before [mxutil_size_p2] is applied:
    the storage is replaced by one of 16 bytes, no space is available, and
    [mxbuf_putc] returns false.  On a full buffer that still uses the range
    of its creator the new storage is allocated without the bytes written so
    far: [mxbuf_putc] returns true, but the contents are the four bytes the
    fresh block held (zero here) followed by the new byte. *)
Theorem mxbuf_putc_fails clz0 :
  let s m := State (Heap m ∅ (2 ^ 33))
                   (Mxbuf (Mxstr 0 0) (Mxstr 0 0) (Mxstr 0 0)) in
  (forall m,
     result (mxbuf_create 1000 (2 ^ 32 + 8);;
             n ← mxbuf_write_chars clz0 120 (2 ^ 32 + 8);
             b0 ← get_buffer;
             ok ← mxbuf_putc clz0 121;
             b1 ← get_buffer;
             mret (n, len (available b0), ok, len (buf b1), written b1))
            (s m) =
     Some (2 ^ 32 + 8, 0, false, 16, 16)) /\
  result (mxbuf_create 500 4;;
          n ← mxbuf_write clz0 (Mxstr 100 4);
          l0 ← mxbuf_bytes;
          ok ← mxbuf_putc clz0 101;
          l1 ← mxbuf_bytes;
          mret (n, l0, ok, l1))
         (s (Mem.of_list 100 [97; 98; 99; 100])) =
  Some (4, [97; 98; 99; 100], true, [0; 0; 0; 0; 101]).
Proof. cbv zeta. split; [intros m|]; vm_compute; reflexivity. Qed.

(** C6. The claim ([mxbuf_put_utf8] appends the encoding to every buffer)
    does not hold of the code, through the two defects of buffer growth shown
    for [mxbuf_putc]: on a full buffer that uses the 4-byte range of its
    creator, U+20AC leaves the contents at four bytes of the fresh block
    (zero here) followed by E2 82 AC, the bytes ["abcd"] written before are
    gone; on a full buffer of 2^32 + 8 bytes, U+0041 returns true and the
    buffer holds 16 bytes afterwards.  The encoding itself and the return
    values are as claimed, see [mxbuf_put_utf8_appends]. *)
Theorem mxbuf_put_utf8_growth_loss clz0 :
  let s m := State (Heap m ∅ (2 ^ 33))
                   (Mxbuf (Mxstr 0 0) (Mxstr 0 0) (Mxstr 0 0)) in
  result (mxbuf_create 500 4;;
          n ← mxbuf_write clz0 (Mxstr 100 4);
          l0 ← mxbuf_bytes;
          ok ← mxbuf_put_utf8 clz0 0x20AC;
          l1 ← mxbuf_bytes;
          mret (n, l0, ok, l1))
         (s (Mem.of_list 100 [97; 98; 99; 100])) =
  Some (4, [97; 98; 99; 100], true, [0; 0; 0; 0; 0xE2; 0x82; 0xAC]) /\
  (forall m,
     result (mxbuf_create 1000 (2 ^ 32 + 8);;
             n ← mxbuf_write_chars clz0 120 (2 ^ 32 + 8);
             ok ← mxbuf_put_utf8 clz0 0x41;
             b1 ← get_buffer;
             mret (n, ok, len (buf b1), written b1))
            (s m) =
     Some (2 ^ 32 + 8, true, 16, 16)).
Proof. cbv zeta. split; [|intros m]; vm_compute; reflexivity. Qed.

(** ** Appending bytes *)

Lemma read_store_snoc m p n c :
  Mem.read (Mem.store m (p + Z.of_nat n) c) p (n + 1) = Mem.read m p n ++ [c].
Proof.
  rewrite read_app. f_equal.
  - apply read_ext. intros a Ha. unfold Mem.store.
    destruct (Z.eqb_spec a (p + Z.of_nat n)); [lia|reflexivity].
  - cbn. unfold Mem.store. rewrite Z.add_0_r, Z.eqb_refl. reflexivity.
Qed.

Lemma mxbuf_bytes_inv s :
  buf_inv (st_buf s) -> mxbuf_bytes s = Some (contents s, s).
Proof.
  intros H. unfold mxbuf_bytes. destruct (mxbuf_str_inv s H) as [-> _].
  reflexivity.
Qed.

(** A single-byte write into available space. *)
Lemma putc_available c s :
  let b := st_buf s in
  buf_inv b -> 1 <= len (available b) ->
  exists s',
    on_available (fun m dest => mxstr_putc m dest c) s = Some (true, s') /\
    contents s' = contents s ++ [c] /\
    buf (st_buf s') = buf b /\ init (st_buf s') = init b /\
    len (available (st_buf s')) = len (available b) - 1 /\
    blocks (st_heap s') = blocks (st_heap s) /\
    brk (st_heap s') = brk (st_heap s) /\
    buf_inv (st_buf s').
Proof.
  intros b Hinv Hav. pose proof Hinv as (Hb & Hi & Ha & Hp).
  fold b in Hb, Hi, Ha, Hp. unfold is_size in Hb, Hi.
  unfold on_available, mxstr_putc, mxstr_empty, mxstr_consume. fold b.
  destruct (Z.eqb_spec (len (available b)) 0); [lia|]. cbn [negb fst].
  rewrite min_spec. replace (Z.min (len (available b)) 1) with 1 by lia.
  rewrite to_size_sub by (unfold is_size; lia).
  eexists. split; [reflexivity|].
  cbn [st_buf st_heap buf available init mem blocks brk ptr len].
  split.
  - unfold contents, written.
    cbn [st_buf st_heap buf available mem ptr len]. fold b.
    replace (Z.to_nat (len (buf b) - (len (available b) - 1)))
      with (Z.to_nat (len (buf b) - len (available b)) + 1)%nat by lia.
    rewrite Hp.
    replace (len (buf b) - len (available b))
      with (Z.of_nat (Z.to_nat (len (buf b) - len (available b)))) at 1 by lia.
    apply read_store_snoc.
  - unfold buf_inv, is_size. cbn [buf available init ptr len].
    repeat split; lia.
Qed.

Lemma can_put_le s k k' : k' <= k -> can_put s k -> can_put s k'.
Proof.
  unfold can_put. intros H (Hi & Hh & Hr).
  split; [exact Hi|]. split; [exact Hh|].
  destruct Hr as [Hr|[Ho Hw]]; [left; lia|right; split; [exact Ho|lia]].
Qed.

(** One [mxbuf_putc] on a buffer with room for [k + 1] bytes. *)
Lemma mxbuf_putc_appends clz0 c s k :
  0 <= k -> can_put s (k + 1) ->
  exists s',
    mxbuf_putc clz0 c s = Some (true, s') /\
    contents s' = contents s ++ [c] /\
    init (st_buf s') = init (st_buf s) /\
    can_put s' k.
Proof.
  intros Hk (Hinv & Hheap & Hroom). unfold mxbuf_putc.
  set (b := st_buf s) in *.
  pose proof Hinv as (Hb & Hi & Ha & Hp). unfold is_size in Hb.
  destruct (Z_lt_le_dec (len (available b)) 1) as [Hfull|Hspace].
  - destruct Hroom as [Hroom|[Hown Hw]]; [lia|].
    assert (len (available b) = 0) as Hav0 by lia.
    assert (written b = len (buf b)) as Hwb by (unfold written; lia).
    assert (to_u32 (len (buf b)) = len (buf b)) as Huc
      by (apply to_u32_small; unfold u32_mod; lia).
    change (to_u32 1) with 1 in *.
    assert (mxutil_size_p2 clz0 1 = 2) as Hp1 by reflexivity.
    pose proof (mxutil_size_p2_range clz0 (len (buf b))) as Hrc.
    assert (len (buf b) = 0 \/
            len (buf b) < mxutil_size_p2 clz0 (len (buf b))) as Hgrow.
    { destruct (Z.eq_dec (len (buf b)) 0); [now left|right].
      rewrite mxutil_size_p2_pos by lia.
      apply next_pow2_gt_spec. lia. }
    destruct (mxbuf_require_grow_ok clz0 1 s Hinv Hheap)
      as (s1 & Hreq & Hbuf & Hbrk & Hheap1 & Hinv1 & Hown1 & _ & Hcont);
      fold b; try rewrite Huc; change (to_u32 1) with 1; try rewrite Hp1;
      try lia.
    fold b in Hbuf. change (to_u32 1) with 1 in Hbuf.
    rewrite Huc, Hp1 in Hbuf.
    destruct (putc_available c s1 Hinv1)
      as (s' & Hput & Hc' & Hbuf' & Hinit' & Hav' & Hblk' & Hbrk' & Hinv');
      [rewrite Hbuf; cbn [available len]; lia|].
    exists s'. split.
    { unfold mbind, M_bind. rewrite Hreq. exact Hput. }
    split; [rewrite Hc', Hcont; [reflexivity|]|].
    { fold b. destruct Hown; [now left|right; lia]. }
    split; [rewrite Hinit', Hbuf; reflexivity|].
    unfold can_put. split; [exact Hinv'|]. split.
    + destruct Hheap1 as (H1 & H2 & H3). unfold heap_ok, owned in *.
      rewrite Hbuf', Hinit', Hblk', Hbrk'. tauto.
    + right. split.
      * left. unfold owned in *. rewrite Hbuf', Hinit'. exact Hown1.
      * unfold written. rewrite Hbuf', Hav', Hbuf.
        cbn [buf available len]. lia.
  - destruct (putc_available c s Hinv Hspace)
      as (s' & Hput & Hc' & Hbuf' & Hinit' & Hav' & Hblk' & Hbrk' & Hinv').
    exists s'. split.
    { unfold mbind, M_bind. rewrite mxbuf_require_enough by (fold b; lia).
      exact Hput. }
    split; [exact Hc'|]. split; [exact Hinit'|].
    unfold can_put. split; [exact Hinv'|]. split.
    + destruct Hheap as (H1 & H2 & H3). unfold heap_ok, owned in *.
      rewrite Hbuf', Hinit', Hblk', Hbrk'. tauto.
    + fold b in Hbuf', Hinit', Hav'. unfold owned, written in *.
      rewrite Hbuf', Hinit', Hav'. fold b.
      destruct Hroom as [Hroom|[[Hown|Hz] Hw]]; [left; lia| |lia].
      right. split; [now left|lia].
Qed.

(** ** UTF-8 *)

Lemma land_ones_mod x n : 0 <= n -> Z.land x (Z.ones n) = x mod 2 ^ n.
Proof. intros H. now apply Z.land_ones. Qed.

(** The bytes [mxbuf_put_utf8] computes with shifts and masks are those of
    the standard's table. *)
Lemma utf8_bytes c :
  0 <= c < 0x110000 ->
  (c < 0x80 -> to_uchar c = c) /\
  to_uchar (0xc0 + Z.land (Z.shiftr c 6) 0x1f) = 0xC0 + (c / 64) mod 32 /\
  to_uchar (0xe0 + Z.land (Z.shiftr c 12) 0xf) = 0xE0 + (c / 4096) mod 16 /\
  to_uchar (0xf0 + Z.land (Z.shiftr c 18) 0x7) = 0xF0 + (c / 262144) mod 8 /\
  to_uchar (0x80 + Z.land (Z.shiftr c 12) 0x3f) = 0x80 + (c / 4096) mod 64 /\
  to_uchar (0x80 + Z.land (Z.shiftr c 6) 0x3f) = 0x80 + (c / 64) mod 64 /\
  to_uchar (0x80 + Z.land c 0x3f) = 0x80 + c mod 64.
Proof.
  intros Hc. unfold to_uchar.
  change 0x1f with (Z.ones 5). change 0xf with (Z.ones 4).
  change 0x7 with (Z.ones 3). change 0x3f with (Z.ones 6).
  rewrite !land_ones_mod by lia. rewrite !Z.shiftr_div_pow2 by lia.
  change (2 ^ 3) with 8. change (2 ^ 4) with 16. change (2 ^ 5) with 32.
  change (2 ^ 6) with 64. change (2 ^ 12) with 4096.
  change (2 ^ 18) with 262144.
  repeat split; try intros ?; apply Z.mod_small;
    Z.div_mod_to_equations; lia.
Qed.

Lemma putc_all_appends clz0 l s k :
  0 <= k -> can_put s (k + Z.of_nat (length l)) ->
  exists s',
    putc_all clz0 l s = Some (tt, s') /\
    contents s' = contents s ++ l /\
    init (st_buf s') = init (st_buf s) /\
    can_put s' k.
Proof.
  intros Hk. revert s. induction l as [|c l IH]; intros s Hcan.
  - exists s. cbn [putc_all length Z.of_nat] in *.
    rewrite Z.add_0_r in Hcan. rewrite app_nil_r.
    split; [reflexivity|]. split; [reflexivity|].
    split; [reflexivity|exact Hcan].
  - cbn [putc_all length] in *.
    destruct (mxbuf_putc_appends clz0 c s (k + Z.of_nat (length l)))
      as (s1 & Hput & Hc1 & Hi1 & Hcan1); [lia| |].
    { eapply can_put_le; [|exact Hcan]. lia. }
    destruct (IH s1 Hcan1) as (s' & Hall & Hc' & Hi' & Hcan').
    exists s'. unfold mbind, M_bind. rewrite Hput.
    split; [exact Hall|]. split; [|split; [congruence|exact Hcan']].
    rewrite Hc', Hc1, <- app_assoc. reflexivity.
Qed.

(** For a code point in range [mxbuf_put_utf8] is [mxbuf_putc] applied to
    the bytes of its encoding in turn, and the result is true; this holds
    on every state. *)
Lemma mxbuf_put_utf8_putc_all clz0 c s :
  0 <= c < 0x110000 ->
  mxbuf_put_utf8 clz0 c s = (putc_all clz0 (utf8_encode c);; mret true) s.
Proof.
  intros Hc. destruct (utf8_bytes c Hc) as (H1 & H2 & H3 & H4 & H5 & H6 & H7).
  unfold mxbuf_put_utf8, utf8_encode.
  destruct (Z.ltb_spec c 0x80) as [L1|L1].
  { rewrite H1 by lia. unfold putc_all, mbind, M_bind.
    destruct (mxbuf_putc _ _ _) as [[? ?]|]; reflexivity. }
  destruct (Z.ltb_spec c 0x800) as [L2|L2].
  { rewrite H2, H7. replace ((c / 64) mod 32) with (c / 64)
      by (Z.div_mod_to_equations; lia).
    unfold putc_all, mbind, M_bind.
    repeat (destruct (mxbuf_putc _ _ _) as [[? ?]|]; [|reflexivity]).
    reflexivity. }
  destruct (Z.ltb_spec c 0x10000) as [L3|L3].
  { rewrite H3, H6, H7. replace ((c / 4096) mod 16) with (c / 4096)
      by (Z.div_mod_to_equations; lia).
    unfold putc_all, mbind, M_bind.
    repeat (destruct (mxbuf_putc _ _ _) as [[? ?]|]; [|reflexivity]).
    reflexivity. }
  destruct (Z.ltb_spec c 0x110000) as [L4|L4]; [|lia].
  rewrite H4, H5, H6, H7. replace ((c / 262144) mod 8) with (c / 262144)
      by (Z.div_mod_to_equations; lia).
  unfold putc_all, mbind, M_bind.
  repeat (destruct (mxbuf_putc _ _ _) as [[? ?]|]; [|reflexivity]).
  reflexivity.
Qed.

(** Out of range nothing is written and the result is false. *)
Lemma mxbuf_put_utf8_out_of_range clz0 c s :
  0x110000 <= c -> mxbuf_put_utf8 clz0 c s = Some (false, s).
Proof.
  intros Hc. unfold mxbuf_put_utf8.
  repeat match goal with
         | |- context [?a <? ?b] => destruct (Z.ltb_spec a b); [lia|]
         end.
  reflexivity.
Qed.

Lemma utf8_encode_length c : (1 <= length (utf8_encode c) <= 4)%nat.
Proof.
  unfold utf8_encode.
  repeat match goal with
         | |- context [?a <? ?b] => destruct (a <? b)
         end; cbn; lia.
Qed.

(** On a buffer that can take the bytes, [mxbuf_put_utf8] appends the
    standard encoding of a code point below 0x110000 and returns true;
    surrogates are encoded like any other code point. *)
Lemma mxbuf_put_utf8_appends clz0 c s k :
  0 <= k -> 0 <= c < 0x110000 -> can_put s (k + 4) ->
  exists s',
    mxbuf_put_utf8 clz0 c s = Some (true, s') /\
    contents s' = contents s ++ utf8_encode c /\
    init (st_buf s') = init (st_buf s) /\
    can_put s' k.
Proof.
  intros Hk Hc Hcan. rewrite mxbuf_put_utf8_putc_all by assumption.
  pose proof (utf8_encode_length c) as Hlen.
  destruct (putc_all_appends clz0 (utf8_encode c) s k Hk)
    as (s' & Hall & Hcont & Hinit & Hcan').
  { eapply can_put_le; [|exact Hcan]. lia. }
  exists s'. unfold mbind, M_bind. rewrite Hall.
  split; [reflexivity|]. split; [exact Hcont|].
  split; [exact Hinit|exact Hcan'].
Qed.

(** The codepoints U+0041, U+20AC and U+1F600 written to a buffer created
    over a zero-length range give the bytes 41, E2 82 AC, F0 9F 98 80,
    whatever [__builtin_clz(0)] yields; 0x110000 is refused and writes
    nothing. *)
Lemma mxbuf_put_utf8_example clz0 m blk top b0 :
  0 < top ->
  result (mxbuf_create NULL 0;;
          r1 ← mxbuf_put_utf8 clz0 0x41;
          r2 ← mxbuf_put_utf8 clz0 0x20AC;
          r3 ← mxbuf_put_utf8 clz0 0x1F600;
          r4 ← mxbuf_put_utf8 clz0 0x110000;
          l ← mxbuf_bytes;
          mret (r1, r2, r3, r4, l))
         (State (Heap m blk top) b0) =
  Some (true, true, true, false,
        [0x41; 0xE2; 0x82; 0xAC; 0xF0; 0x9F; 0x98; 0x80]).
Proof.
  intros Htop. unfold result, mbind, M_bind, mxbuf_create, mxstr.
  cbn [st_heap].
  set (s0 := State (Heap m blk top)
                   (Mxbuf (Mxstr NULL 0) (Mxstr NULL 0) (Mxstr NULL 0))).
  assert (can_put s0 (8 + 4)) as Hcan.
  { unfold can_put, s0. cbn [st_buf st_heap]. split; [|split].
    - unfold buf_inv, is_size, size_mod. cbn. lia.
    - unfold heap_ok, owned, NULL. cbn. split; [lia|]. split; [lia|].
      intros H. now contradiction H.
    - right. split; [now right|]. unfold written. cbn. lia. }
  destruct (mxbuf_put_utf8_appends clz0 0x41 s0 8) as (s1 & -> & C1 & _ & Hcan1);
    [lia|lia|exact Hcan|].
  destruct (mxbuf_put_utf8_appends clz0 0x20AC s1 4) as (s2 & -> & C2 & _ & Hcan2);
    [lia|lia|exact Hcan1|].
  destruct (mxbuf_put_utf8_appends clz0 0x1F600 s2 0) as (s3 & -> & C3 & _ & Hcan3);
    [lia|lia|exact Hcan2|].
  rewrite mxbuf_put_utf8_out_of_range by lia.
  rewrite mxbuf_bytes_inv by apply Hcan3.
  rewrite C3, C2, C1. reflexivity.
Qed.

(** A surrogate is encoded, not rejected. *)
Lemma mxbuf_put_utf8_surrogate clz0 s :
  can_put s 4 ->
  exists s',
    mxbuf_put_utf8 clz0 0xD800 s = Some (true, s') /\
    contents s' = contents s ++ [0xED; 0xA0; 0x80].
Proof.
  intros Hcan.
  destruct (mxbuf_put_utf8_appends clz0 0xD800 s 0) as (s' & H & C & _);
    [lia|lia|exact Hcan|].
  exists s'. split; [exact H|exact C].
Qed.

(** ** Writing a string *)

Lemma read_memcpy_snoc m p n src k :
  Mem.read (Mem.memcpy m (p + Z.of_nat n) src (Z.of_nat k)) p (n + k) =
  Mem.read m p n ++ Mem.read m src k.
Proof.
  rewrite read_app. f_equal.
  - apply read_ext. intros a Ha. unfold Mem.memcpy.
    destruct (Z.leb_spec (p + Z.of_nat n) a); [lia|reflexivity].
  - apply read_memcpy. lia.
Qed.

(** [mxstr_write] into the available space stores as much of [src] as
    fits. *)
Lemma write_available src s :
  let b := st_buf s in
  let n := Z.min (len (available b)) (len src) in
  buf_inv b -> 0 <= len src ->
  exists s',
    on_available (fun m dest => mxstr_write m dest src) s = Some (n, s') /\
    contents s' =
      contents s ++ Mem.read (mem (st_heap s)) (ptr src) (Z.to_nat n) /\
    buf_inv (st_buf s').
Proof.
  intros b n Hinv Hsrc. pose proof Hinv as (Hb & Hi & Ha & Hp).
  fold b in Hb, Hi, Ha, Hp. unfold is_size in Hb, Hi.
  unfold on_available, mxstr_write. fold b. rewrite min_spec. fold n.
  rewrite to_size_sub by (unfold is_size; lia).
  eexists. split; [reflexivity|].
  cbn [st_buf st_heap buf available init mem blocks brk ptr len]. split.
  - unfold contents, written.
    cbn [st_buf st_heap buf available mem ptr len]. fold b.
    replace (Z.to_nat (len (buf b) - (len (available b) - n)))
      with (Z.to_nat (len (buf b) - len (available b)) + Z.to_nat n)%nat
      by lia.
    rewrite Hp.
    replace (len (buf b) - len (available b))
      with (Z.of_nat (Z.to_nat (len (buf b) - len (available b)))) at 1 by lia.
    replace n with (Z.of_nat (Z.to_nat n)) at 1 by lia.
    apply read_memcpy_snoc.
  - unfold buf_inv, is_size. cbn [buf available init ptr len].
    repeat split; lia.
Qed.

(** What [mxbuf_write] does on a buffer that can grow without loss: when the
    string does not fit, the storage becomes
    [max (mxutil_size_p2 capacity) (next_pow2_gt (len src))] bytes, and the
    bytes of [src] that fit in it after those already written are stored;
    their number is returned. *)
Lemma mxbuf_write_stores clz0 src s :
  let b := st_buf s in
  let h := st_heap s in
  let room :=
    if len src <=? len (available b) then len (available b)
    else Z.max (mxutil_size_p2 clz0 (len (buf b))) (next_pow2_gt (len src))
         - written b in
  let n := Z.min (len src) room in
  buf_inv b -> heap_ok h b -> str_ok src ->
  ptr src + len src <= brk h ->
  len (buf b) < 2 ^ 31 -> len src < 2 ^ 31 ->
  owned b \/ written b = 0 \/ len src <= len (available b) ->
  exists s',
    mxbuf_write clz0 src s = Some (n, s') /\
    contents s' = contents s ++ firstn (Z.to_nat n) (str_bytes (mem h) src) /\
    buf_inv (st_buf s').
Proof.
  intros b h room n Hinv Hheap Hsrc Hlow Hcap Hlen Hgrow.
  pose proof Hinv as (Hb & Hi & Ha & Hp). fold b in Hb, Hi, Ha, Hp.
  unfold is_size in Hb, Hi. unfold str_ok, is_size in Hsrc.
  unfold mxbuf_write, mbind, M_bind.
  assert (forall k, (k <= Z.to_nat (len src))%nat ->
          firstn k (str_bytes (mem h) src) = Mem.read (mem h) (ptr src) k)
    as Hfirst by (intros k Hk; now apply read_firstn).
  subst n room. destruct (Z.leb_spec (len src) (len (available b))) as [Hfit|Hno].
  - rewrite mxbuf_require_enough by (fold b; lia).
    destruct (write_available src s Hinv) as (s' & Hw & Hc & Hinv'); [lia|].
    fold b in Hw, Hc. rewrite Z.min_comm in Hw, Hc.
    exists s'. split; [exact Hw|]. split; [|exact Hinv'].
    rewrite Hc, Hfirst by lia. reflexivity.
  - assert (to_u32 (len src) = len src) as Hus
      by (apply to_u32_small; unfold u32_mod; lia).
    assert (to_u32 (len (buf b)) = len (buf b)) as Huc
      by (apply to_u32_small; unfold u32_mod; lia).
    assert (mxutil_size_p2 clz0 (len src) = next_pow2_gt (len src)) as Hps
      by (apply mxutil_size_p2_pos; lia).
    assert (2 <= next_pow2_gt (len src) <= 2 ^ 31) as Hbs
      by (apply next_pow2_gt_bound; lia).
    pose proof (mxutil_size_p2_range clz0 (len (buf b))) as Hrc.
    destruct (mxbuf_require_grow_ok clz0 (len src) s Hinv Hheap)
      as (s1 & -> & Hbuf & _ & _ & Hinv1 & _ & Hmem & Hcont);
      fold b; try rewrite Hus; try rewrite Huc; try rewrite Hps; try lia.
    { destruct (Z.eq_dec (len (buf b)) 0) as [Hz|Hnz].
      - unfold written. lia.
      - rewrite mxutil_size_p2_pos by lia.
        pose proof (next_pow2_gt_spec (len (buf b))) as (Hg & _); [lia|].
        unfold written. lia. }
    fold b in Hbuf. rewrite Hus, Huc, Hps in Hbuf.
    destruct (write_available src s1 Hinv1) as (s' & Hw & Hc & Hinv'); [lia|].
    rewrite Hbuf in Hw, Hc. cbn [available len] in Hw, Hc.
    rewrite Z.min_comm in Hw, Hc.
    exists s'. split; [exact Hw|]. split; [|exact Hinv'].
    rewrite Hc, Hfirst by lia.
    rewrite Hcont
      by (fold b; destruct Hgrow as [?|[?|?]]; [now left|now right|lia]).
    f_equal. apply read_ext. intros a Has. apply Hmem. fold h. lia.
Qed.

(** The loss is systematic: a full buffer of [2^k] bytes that owns its
    storage takes only [2^k] of the [2^k + 1] bytes of a string. *)
Lemma mxbuf_write_full_drops clz0 k src s :
  let b := st_buf s in
  1 <= k < 30 ->
  buf_inv b -> heap_ok (st_heap s) b -> owned b ->
  len (buf b) = 2 ^ k -> len (available b) = 0 ->
  len src = 2 ^ k + 1 -> ptr src + len src <= brk (st_heap s) ->
  exists s',
    mxbuf_write clz0 src s = Some (2 ^ k, s') /\
    contents s' =
      contents s ++ firstn (Z.to_nat (2 ^ k)) (str_bytes (mem (st_heap s)) src).
Proof.
  intros b Hk Hinv Hheap Hown Hcap Hav Hlen Hlow.
  assert (2 <= 2 ^ k < 2 ^ 30) as Hpk.
  { split.
    - change 2 with (2 ^ 1) at 1. apply Z.pow_le_mono_r; lia.
    - apply Z.pow_lt_mono_r; lia. }
  assert (next_pow2_gt (2 ^ k) = 2 ^ (k + 1)) as Hn1
    by (unfold next_pow2_gt; rewrite Z.log2_pow2 by lia; reflexivity).
  assert (next_pow2_gt (2 ^ k + 1) = 2 ^ (k + 1)) as Hn2.
  { unfold next_pow2_gt. f_equal. f_equal. apply Z.log2_unique; [lia|].
    change (Z.succ k) with (k + 1). rewrite Z.pow_add_r by lia. lia. }
  assert (2 ^ (k + 1) = 2 * 2 ^ k) as Hdbl
    by (rewrite Z.pow_add_r by lia; lia).
  destruct (mxbuf_write_stores clz0 src s Hinv Hheap)
    as (s' & Hw & Hc & _); fold b;
    try (unfold str_ok, is_size, size_mod; lia); try lia; [now left|].
  fold b in Hw, Hc.
  destruct (Z.leb_spec (len src) (len (available b))); [lia|].
  rewrite Hcap, Hlen, Hn2 in Hw, Hc.
  rewrite mxutil_size_p2_pos, Hn1 in Hw, Hc by lia.
  unfold written in Hw, Hc. fold b in Hw, Hc. rewrite Hcap, Hav in Hw, Hc.
  replace (Z.min (2 ^ k + 1) (Z.max (2 ^ (k + 1)) (2 ^ (k + 1)) - (2 ^ k - 0)))
    with (2 ^ k) in Hw, Hc by lia.
  exists s'. split; [exact Hw|exact Hc].
Qed.

(** * Further properties *)

(** ** Consuming from a view *)

Lemma mxstr_consume_eq v n :
  str_ok v -> 0 <= n ->
  mxstr_consume v n =
    (Mxstr (ptr v + Z.min (len v) n) (len v - Z.min (len v) n),
     Z.min (len v) n).
Proof.
  intros Hv Hn. unfold mxstr_consume. rewrite min_spec.
  rewrite to_size_sub by (unfold str_ok, is_size in *; lia). reflexivity.
Qed.

(** X1. [mxstr_consume] removes [min (len v) n] bytes from the front and returns
    their number: the view is the removed bytes followed by what remains,
    [mxstr_prefix] of the old view and the new one is the removed part, and
    asking for at least [len v] bytes leaves the empty view. *)
Theorem mxstr_consume_spec m v n :
  str_ok v -> is_size n ->
  let v' := fst (mxstr_consume v n) in
  let k := snd (mxstr_consume v n) in
  k = Z.min (len v) n /\
  v' = Mxstr (ptr v + k) (len v - k) /\
  str_ok v' /\
  str_bytes m v = Mem.read m (ptr v) (Z.to_nat k) ++ str_bytes m v' /\
  mxstr_prefix v v' = Some (Mxstr (ptr v) k) /\
  (len v <= n -> mxstr_empty v' = true).
Proof.
  intros Hv Hn. cbv zeta. unfold str_ok, is_size in *.
  rewrite mxstr_consume_eq by (unfold str_ok, is_size; lia). cbn [fst snd].
  set (k := Z.min (len v) n).
  split; [reflexivity|]. split; [reflexivity|].
  split; [unfold str_ok, is_size; cbn [len]; lia|]. split; [|split].
  - unfold str_bytes. cbn [ptr len].
    replace (Z.to_nat (len v)) with (Z.to_nat k + Z.to_nat (len v - k))%nat
      by lia.
    rewrite read_app. do 2 f_equal. lia.
  - unfold mxstr_prefix, mxstr_substr_offset. cbn [ptr len].
    rewrite to_size_ptr_diff by (unfold is_size; lia).
    destruct (Z.leb_spec k (len v)); [reflexivity|lia].
  - intros Hle. unfold mxstr_empty. cbn [len]. apply Z.eqb_eq. lia.
Qed.

Lemma mxstr_consume_spec_witness :
  let m := Mem.of_list 100 [104; 105; 33] in
  mxstr_consume (Mxstr 100 3) 2 = (Mxstr 102 1, 2) /\
  str_bytes m (Mxstr 100 3) = [104; 105] ++ [33] /\
  mxstr_consume (Mxstr 100 3) 9 = (Mxstr 103 0, 3).
Proof.
  cbv zeta.
  destruct (mxstr_consume_spec (Mem.of_list 100 [104; 105; 33])
              (Mxstr 100 3) 2) as (Hk & Hv & _ & Hb & _);
    [unfold str_ok, is_size, size_mod; cbn; lia
    |unfold is_size, size_mod; lia|].
  destruct (mxstr_consume_spec (Mem.of_list 100 [104; 105; 33])
              (Mxstr 100 3) 9) as (Hk9 & Hv9 & _);
    [unfold str_ok, is_size, size_mod; cbn; lia
    |unfold is_size, size_mod; lia|].
  destruct (mxstr_consume (Mxstr 100 3) 2) as [v2 k2].
  destruct (mxstr_consume (Mxstr 100 3) 9) as [v9 k9].
  cbn [fst snd] in *. subst. repeat split.
Defined.

(** X2. Consuming [n] and then [k] bytes is consuming [n + k] bytes at once: the
    views agree and the counts add up. *)
Theorem mxstr_consume_compose v n k :
  str_ok v -> is_size n -> is_size k -> is_size (n + k) ->
  let '(v1, c1) := mxstr_consume v n in
  let '(v2, c2) := mxstr_consume v1 k in
  mxstr_consume v (n + k) = (v2, c1 + c2).
Proof.
  intros Hv Hn Hk Hnk. unfold str_ok, is_size in *.
  rewrite (mxstr_consume_eq v n) by (unfold str_ok, is_size; lia).
  rewrite (mxstr_consume_eq _ k)
    by (unfold str_ok, is_size; cbn [len]; lia).
  rewrite (mxstr_consume_eq v (n + k)) by (unfold str_ok, is_size; lia).
  cbn [ptr len]. f_equal; [f_equal|]; lia.
Qed.

Lemma mxstr_consume_compose_witness :
  mxstr_consume (Mxstr 100 5) (2 + 4) = (Mxstr 105 0, 2 + 3).
Proof.
  pose proof (mxstr_consume_compose (Mxstr 100 5) 2 4) as H.
  cbv beta iota zeta in H. apply H;
    unfold str_ok, is_size, size_mod; cbn; lia.
Defined.

Lemma mxstr_consume_char_eq m v c match_ :
  str_ok v ->
  mxstr_consume_char m v c match_ =
    if 0 <? len v then
      if match_ (m (ptr v)) then
        (true, Mxstr (ptr v + 1) (len v - 1), m (ptr v))
      else (false, v, m (ptr v))
    else (false, v, c).
Proof.
  intros Hv. unfold mxstr_consume_char, mxstr_getchar, Mem.load.
  unfold str_ok, is_size in Hv.
  destruct (Z.gtb_spec (len v) 0), (Z.ltb_spec 0 (len v)); try lia;
    [|reflexivity].
  destruct (match_ (m (ptr v))); [|reflexivity].
  rewrite mxstr_consume_eq by (unfold str_ok, is_size; lia).
  replace (Z.min (len v) 1) with 1 by lia. reflexivity.
Qed.

(** X3. [mxstr_consume_chars] ends (after at most [len v + 1] evaluations of the
    loop condition) and removes exactly the longest run of matching bytes at
    the front: every removed byte matches, and the view that remains is empty
    or begins with a byte that does not match.  The auxiliary variable holds
    the last byte examined: the first byte that does not match, or the last
    byte of the view when all of it was removed; it is untouched when the
    view is empty. *)
Theorem mxstr_consume_chars_spec m v c match_ fuel :
  str_ok v -> (Z.to_nat (len v) < fuel)%nat ->
  exists k c',
    mxstr_consume_chars fuel m v c match_ =
      Some (Mxstr (ptr v + k) (len v - k), c') /\
    0 <= k <= len v /\
    (forall i, 0 <= i < k -> match_ (m (ptr v + i)) = true) /\
    (k < len v -> match_ (m (ptr v + k)) = false /\ c' = m (ptr v + k)) /\
    (k = len v -> 0 < len v -> c' = m (ptr v + len v - 1)) /\
    (len v = 0 -> c' = c).
Proof.
  revert v c. induction fuel as [|fuel IH]; intros v c Hv Hfuel; [lia|].
  cbn [mxstr_consume_chars]. rewrite mxstr_consume_char_eq by exact Hv.
  unfold str_ok, is_size in Hv.
  destruct (Z.ltb_spec 0 (len v)) as [Hpos|Hzero].
  - destruct (match_ (m (ptr v))) eqn:Hm.
    + destruct (IH (Mxstr (ptr v + 1) (len v - 1)) (m (ptr v)))
        as (k & c' & Hrun & Hk & Hall & Hstop & Hend & Hnil).
      { unfold str_ok, is_size. cbn [len]. lia. }
      { cbn [len]. lia. }
      cbn [ptr len] in *. exists (k + 1), c'. rewrite Hrun.
      split; [do 2 f_equal; f_equal; lia|]. split; [lia|]. split; [|split; [|split]].
      * intros i Hi. destruct (Z.eq_dec i 0) as [->|Hne].
        -- now rewrite Z.add_0_r.
        -- replace (ptr v + i) with (ptr v + 1 + (i - 1)) by lia.
           apply Hall. lia.
      * intros Hlt. replace (ptr v + (k + 1)) with (ptr v + 1 + k) by lia.
        apply Hstop. lia.
      * intros Hkl _. destruct (Z.eq_dec (len v) 1) as [H1|H1].
        -- rewrite Hnil by lia. f_equal. lia.
        -- replace (ptr v + len v - 1) with (ptr v + 1 + (len v - 1) - 1)
             by lia.
           apply Hend; lia.
      * lia.
    + exists 0, (m (ptr v)). rewrite Z.add_0_r, Z.sub_0_r.
      split; [now destruct v|]. split; [lia|]. split; [lia|].
      split; [now split|]. split; lia.
  - exists 0, c. rewrite Z.add_0_r, Z.sub_0_r.
    split; [now destruct v|]. split; [lia|]. split; [lia|].
    split; [lia|]. split; [lia|reflexivity].
Qed.

Lemma mxstr_consume_chars_spec_witness :
  let m := Mem.of_list 100 [32; 32; 32; 97; 98; 99] in
  mxstr_consume_chars 7 m (Mxstr 100 6) 0 (fun c => c =? 32) =
    Some (Mxstr 103 3, 97).
Proof.
  cbv zeta.
  destruct (mxstr_consume_chars_spec (Mem.of_list 100 [32; 32; 32; 97; 98; 99])
              (Mxstr 100 6) 0 (fun c => c =? 32) 7)
    as (k & c' & Hrun & Hk & Hall & Hstop & _).
  - unfold str_ok, is_size, size_mod. cbn. lia.
  - cbn. lia.
  - rewrite Hrun. cbn [ptr len] in *.
    assert (k = 3) as ->.
    { destruct (Z_lt_le_dec k 3) as [Hlt|Hge].
      - destruct Hstop as [Hs _]; [lia|].
        assert (k = 0 \/ k = 1 \/ k = 2) as [-> | [-> | ->]] by lia;
          discriminate Hs.
      - destruct (Z.eq_dec k 3) as [|Hne]; [assumption|].
        specialize (Hall 3). discriminate Hall. lia. }
    destruct Hstop as [_ ->]; [lia|]. reflexivity.
Defined.

(** ** Writing into a view *)

Lemma mxstr_write_eq m dest src :
  str_ok dest -> 0 <= len src ->
  mxstr_write m dest src =
    (Mem.memcpy m (ptr dest) (ptr src) (Z.min (len dest) (len src)),
     Mxstr (ptr dest + Z.min (len dest) (len src))
           (len dest - Z.min (len dest) (len src)),
     Z.min (len dest) (len src)).
Proof.
  intros Hd Hs. unfold mxstr_write. rewrite min_spec.
  rewrite to_size_sub by (unfold str_ok, is_size in *; lia). reflexivity.
Qed.

Lemma mxstr_write_chars_eq m dest c n :
  str_ok dest -> 0 <= n ->
  mxstr_write_chars m dest c n =
    (Mem.memset m (ptr dest) c (Z.min (len dest) n),
     Mxstr (ptr dest + Z.min (len dest) n) (len dest - Z.min (len dest) n),
     Z.min (len dest) n).
Proof.
  intros Hd Hs. unfold mxstr_write_chars. rewrite min_spec.
  rewrite to_size_sub by (unfold str_ok, is_size in *; lia). reflexivity.
Qed.

Lemma read_memset m dst c k n :
  Z.of_nat n <= k -> Mem.read (Mem.memset m dst c k) dst n = repeat c n.
Proof.
  intros H. unfold Mem.read.
  transitivity (map (fun _ : nat => c) (seq 0 n)).
  - apply map_ext_in. intros i Hi. apply in_seq in Hi. unfold Mem.memset.
    destruct (Z.leb_spec dst (dst + Z.of_nat i)); [|lia].
    destruct (Z.ltb_spec (dst + Z.of_nat i) (dst + k)); [|lia]. reflexivity.
  - now rewrite map_const, length_seq.
Qed.

Lemma prefix_advanced dest k :
  str_ok dest -> 0 <= k <= len dest ->
  mxstr_prefix dest (Mxstr (ptr dest + k) (len dest - k)) =
    Some (Mxstr (ptr dest) k).
Proof.
  intros Hd Hk. unfold mxstr_prefix, mxstr_substr_offset. cbn [ptr len].
  unfold str_ok, is_size in Hd.
  rewrite to_size_ptr_diff by (unfold is_size; lia).
  destruct (Z.leb_spec k (len dest)); [reflexivity|lia].
Qed.

(** X4. When the bytes read and the bytes written do not overlap (as
    [memcpy] requires), [mxstr_write] copies the first
    [min (len dest) (len src)] bytes of [src] to the front of [dest] and
    returns their number; it changes no byte outside that part of [dest] (in
    particular none beyond the end of [dest]), and [dest] moves past what
    was written, so that [mxstr_prefix] of the old and the new [dest] is the
    written part. *)
Theorem mxstr_write_spec m dest src :
  str_ok dest -> str_ok src ->
  disjoint (ptr src) (Z.min (len dest) (len src))
           (ptr dest) (Z.min (len dest) (len src)) ->
  let m' := fst (fst (mxstr_write m dest src)) in
  let dest' := snd (fst (mxstr_write m dest src)) in
  let size := snd (mxstr_write m dest src) in
  size = Z.min (len dest) (len src) /\
  dest' = Mxstr (ptr dest + size) (len dest - size) /\
  Mem.read m' (ptr dest) (Z.to_nat size) =
    firstn (Z.to_nat size) (str_bytes m src) /\
  (forall a, a < ptr dest \/ ptr dest + size <= a -> m' a = m a) /\
  mxstr_prefix dest dest' = Some (Mxstr (ptr dest) size).
Proof.
  intros Hd Hs _. cbv zeta. pose proof Hd as Hd'. pose proof Hs as Hs'.
  unfold str_ok, is_size in Hd', Hs'.
  rewrite mxstr_write_eq by (assumption || lia). cbn [fst snd].
  set (n := Z.min (len dest) (len src)).
  split; [reflexivity|]. split; [reflexivity|]. split; [|split].
  - rewrite read_memcpy by lia. unfold str_bytes. symmetry.
    apply read_firstn. lia.
  - intros a Ha. unfold Mem.memcpy.
    destruct (Z.leb_spec (ptr dest) a), (Z.ltb_spec a (ptr dest + n));
      cbn; try reflexivity; lia.
  - apply prefix_advanced; [assumption|lia].
Qed.

Lemma mxstr_write_spec_witness :
  let m := Mem.of_list 100 [104; 101; 108; 108; 111] in
  snd (mxstr_write m (Mxstr 200 3) (Mxstr 100 5)) = 3 /\
  Mem.read (fst (fst (mxstr_write m (Mxstr 200 3) (Mxstr 100 5)))) 200 4 =
    [104; 101; 108; 0].
Proof.
  cbv zeta.
  destruct (mxstr_write_spec (Mem.of_list 100 [104; 101; 108; 108; 111])
              (Mxstr 200 3) (Mxstr 100 5)) as (Hn & _ & Hr & Hf & _);
    [unfold str_ok, is_size, size_mod; cbn; lia
    |unfold str_ok, is_size, size_mod; cbn; lia
    |unfold disjoint; cbn; lia|].
  split; [exact Hn|].
  change 4%nat with (3 + 1)%nat. rewrite read_app.
  rewrite Hn in Hr. cbn [ptr len] in Hr.
  change (Z.to_nat (Z.min 3 5)) with 3%nat in Hr. rewrite Hr.
  cbn [Mem.read seq map]. rewrite Hf by (rewrite Hn; cbn; lia).
  reflexivity.
Defined.

(** X5. [mxstr_write_chars] fills the first [min (len dest) n] bytes of [dest]
    with [c] and returns their number; no other byte changes and [dest] moves
    past what was written. *)
Theorem mxstr_write_chars_spec m dest c n :
  str_ok dest -> is_size n ->
  let m' := fst (fst (mxstr_write_chars m dest c n)) in
  let dest' := snd (fst (mxstr_write_chars m dest c n)) in
  let size := snd (mxstr_write_chars m dest c n) in
  size = Z.min (len dest) n /\
  dest' = Mxstr (ptr dest + size) (len dest - size) /\
  Mem.read m' (ptr dest) (Z.to_nat size) = repeat c (Z.to_nat size) /\
  (forall a, a < ptr dest \/ ptr dest + size <= a -> m' a = m a) /\
  mxstr_prefix dest dest' = Some (Mxstr (ptr dest) size).
Proof.
  intros Hd Hn. cbv zeta. pose proof Hd as Hd'.
  unfold str_ok, is_size in Hd', Hn.
  rewrite mxstr_write_chars_eq by (assumption || lia). cbn [fst snd].
  set (k := Z.min (len dest) n).
  split; [reflexivity|]. split; [reflexivity|]. split; [|split].
  - apply read_memset. lia.
  - intros a Ha. unfold Mem.memset.
    destruct (Z.leb_spec (ptr dest) a), (Z.ltb_spec a (ptr dest + k));
      cbn; try reflexivity; lia.
  - apply prefix_advanced; [assumption|lia].
Qed.

Lemma mxstr_write_chars_spec_witness :
  snd (mxstr_write_chars (fun _ => 0) (Mxstr 200 2) 42 5) = 2 /\
  Mem.read (fst (fst (mxstr_write_chars (fun _ => 0) (Mxstr 200 2) 42 5)))
           200 2 = [42; 42].
Proof.
  destruct (mxstr_write_chars_spec (fun _ => 0) (Mxstr 200 2) 42 5)
    as (Hn & _ & Hr & _);
    [unfold str_ok, is_size, size_mod; cbn; lia
    |unfold is_size, size_mod; lia|].
  split; [exact Hn|]. rewrite Hn in Hr. exact Hr.
Defined.

(** X6. The documented way to fill a fixed block: with [available] starting as
    the whole of [buf], two [mxstr_write]s followed by
    [mxstr_prefix buf available] give the two strings one after the other,
    cut off at the size of the block; the counts returned add up to the
    number of bytes kept. *)
Theorem mxstr_write_twice m buffer src1 src2 :
  str_ok buffer -> str_ok src1 -> str_ok src2 ->
  disjoint (ptr src1) (len src1) (ptr buffer) (len buffer) ->
  disjoint (ptr src2) (len src2) (ptr buffer) (len buffer) ->
  let '(m1, available1, n1) := mxstr_write m buffer src1 in
  let '(m2, available2, n2) := mxstr_write m1 available1 src2 in
  n1 + n2 = Z.min (len buffer) (len src1 + len src2) /\
  exists str,
    mxstr_prefix buffer available2 = Some str /\
    len str = n1 + n2 /\
    str_bytes m2 str =
      firstn (Z.to_nat (len buffer)) (str_bytes m src1 ++ str_bytes m src2).
Proof.
  intros Hb H1 H2 _ Hdis. pose proof Hb as Hb'.
  unfold str_ok, is_size in Hb', H1, H2.
  rewrite mxstr_write_eq by (assumption || lia).
  set (n1 := Z.min (len buffer) (len src1)).
  rewrite mxstr_write_eq
    by (unfold str_ok, is_size; cbn [len]; lia). cbn [ptr len].
  set (n2 := Z.min (len buffer - n1) (len src2)).
  split; [lia|].
  exists (Mxstr (ptr buffer) (n1 + n2)). split; [|split; [reflexivity|]].
  - replace (ptr buffer + n1 + n2) with (ptr buffer + (n1 + n2)) by lia.
    replace (len buffer - n1 - n2) with (len buffer - (n1 + n2)) by lia.
    apply prefix_advanced; [assumption|lia].
  - unfold str_bytes. cbn [ptr len].
    replace (Z.to_nat (n1 + n2)) with (Z.to_nat n1 + Z.to_nat n2)%nat by lia.
    assert (n1 = Z.of_nat (Z.to_nat n1)) as E1 by lia.
    assert (n2 = Z.of_nat (Z.to_nat n2)) as E2 by lia.
    assert (Z.to_nat n1 <= Z.to_nat (len src1))%nat as L1 by lia.
    assert (Z.to_nat n2 <= Z.to_nat (len src2))%nat as L2 by lia.
    assert (firstn (Z.to_nat (len buffer))
              (Mem.read m (ptr src1) (Z.to_nat (len src1)) ++
               Mem.read m (ptr src2) (Z.to_nat (len src2))) =
            Mem.read m (ptr src1) (Z.to_nat n1) ++
            Mem.read m (ptr src2) (Z.to_nat n2)) as ->.
    { rewrite firstn_app, read_length.
      destruct (Z_le_gt_dec (len buffer) (len src1)) as [Hle|Hgt].
      - rewrite read_firstn by lia.
        replace (Z.to_nat (len buffer) - Z.to_nat (len src1))%nat with O
          by lia.
        replace (Z.to_nat n2) with O by lia.
        replace (Z.to_nat n1) with (Z.to_nat (len buffer)) by lia.
        reflexivity.
      - rewrite firstn_all2 by (rewrite read_length; lia).
        replace (Z.to_nat n1) with (Z.to_nat (len src1)) by lia.
        f_equal.
        destruct (Z_le_gt_dec (len buffer - len src1) (len src2)).
        + rewrite read_firstn by lia. f_equal. lia.
        + rewrite firstn_all2 by (rewrite read_length; lia). f_equal. lia. }
    generalize dependent (Z.to_nat n2). generalize dependent (Z.to_nat n1).
    intros k1 E1 L1 k2 E2 L2. rewrite E1, E2.
    rewrite read_memcpy_snoc, read_memcpy by lia. f_equal.
    apply read_ext. intros a Ha. unfold Mem.memcpy.
    destruct (Z.leb_spec (ptr buffer) a),
      (Z.ltb_spec a (ptr buffer + Z.of_nat k1));
      cbn; try reflexivity.
    unfold disjoint in Hdis. lia.
Qed.

Lemma mxstr_write_twice_witness :
  let m := Mem.of_list 100 [104; 105; 33; 33; 33] in
  exists str,
    mxstr_prefix (Mxstr 200 4)
      (snd (fst (mxstr_write
                   (fst (fst (mxstr_write m (Mxstr 200 4) (Mxstr 100 2))))
                   (snd (fst (mxstr_write m (Mxstr 200 4) (Mxstr 100 2))))
                   (Mxstr 102 3)))) = Some str /\
    len str = 4.
Proof.
  cbv zeta.
  pose proof (mxstr_write_twice (Mem.of_list 100 [104; 105; 33; 33; 33])
                (Mxstr 200 4) (Mxstr 100 2) (Mxstr 102 3)) as H.
  destruct (mxstr_write _ (Mxstr 200 4) (Mxstr 100 2)) as [[m1 a1] n1] eqn:E1.
  cbn [fst snd].
  destruct (mxstr_write m1 a1 (Mxstr 102 3)) as [[m2 a2] n2] eqn:E2.
  cbn [fst snd].
  destruct H as (Hn & str & Hp & Hl & _);
    try (unfold str_ok, is_size, size_mod; cbn; lia);
    try (unfold disjoint; cbn; lia).
  exists str. split; [exact Hp|]. rewrite Hl, Hn. reflexivity.
Defined.

(** ** Offsets *)

(** X7. For a string that lies within the address space,
    [mxstr_substr_offset] returns the distance between the two starts exactly
    when the substring starts inside the string or at its end; when it starts
    before the string or beyond its end the assertion fails. *)
Theorem mxstr_substr_offset_spec str substr :
  str_ok str ->
  0 <= ptr str -> ptr str + len str < size_mod ->
  0 <= ptr substr < size_mod ->
  (ptr str <= ptr substr <= ptr str + len str ->
   mxstr_substr_offset str substr = Some (ptr substr - ptr str)) /\
  (ptr substr < ptr str \/ ptr str + len str < ptr substr ->
   mxstr_substr_offset str substr = None).
Proof.
  intros Hs Hp Hend Hq. unfold str_ok, is_size in Hs.
  unfold mxstr_substr_offset, to_size. split.
  - intros Hin. rewrite Z.mod_small by lia.
    destruct (Z.leb_spec (ptr substr - ptr str) (len str)); [reflexivity|lia].
  - intros [Hlt|Hgt].
    + replace ((ptr substr - ptr str) mod size_mod)
        with (ptr substr - ptr str + size_mod)
        by (apply Z.mod_unique with (-1); lia).
      destruct (Z.leb_spec (ptr substr - ptr str + size_mod) (len str));
        [lia|reflexivity].
    + rewrite Z.mod_small by lia.
      destruct (Z.leb_spec (ptr substr - ptr str) (len str));
        [lia|reflexivity].
Qed.

Lemma mxstr_substr_offset_spec_witness :
  mxstr_substr_offset (Mxstr 100 10) (Mxstr 104 2) = Some 4 /\
  mxstr_substr_offset (Mxstr 100 10) (Mxstr 99 2) = None /\
  mxstr_substr_offset (Mxstr 100 10) (Mxstr 111 0) = None.
Proof.
  assert (forall q, 0 <= q < size_mod ->
          (100 <= q <= 110 ->
           mxstr_substr_offset (Mxstr 100 10) (Mxstr q 2) = Some (q - 100)) /\
          (q < 100 \/ 110 < q ->
           mxstr_substr_offset (Mxstr 100 10) (Mxstr q 2) = None)) as H.
  { intros q Hq.
    apply (mxstr_substr_offset_spec (Mxstr 100 10) (Mxstr q 2));
      unfold str_ok, is_size, size_mod in *; cbn; lia. }
  split; [apply (H 104); unfold size_mod; lia|].
  split; [apply (H 99); unfold size_mod; lia|reflexivity].
Defined.

(** ** Comparison of views below 2^31 bytes *)

(** X8. For views below 2^31 bytes [mxstr_cmp] is a total preorder: swapping
    the arguments swaps the sign, a view compares equal to itself, any two
    views are comparable, and the order is transitive. *)
Theorem mxstr_cmp_total_preorder m a b c :
  0 <= len a < 2 ^ 31 -> 0 <= len b < 2 ^ 31 -> 0 <= len c < 2 ^ 31 ->
  Z.sgn (mxstr_cmp m b a) = - Z.sgn (mxstr_cmp m a b) /\
  mxstr_cmp m a a = 0 /\
  (mxstr_cmp m a b <= 0 \/ mxstr_cmp m b a <= 0) /\
  (mxstr_cmp m a b <= 0 -> mxstr_cmp m b c <= 0 -> mxstr_cmp m a c <= 0).
Proof.
  intros Ha Hb Hc.
  destruct (mxstr_cmp_preorder m a b c Ha Hb Hc) as [Hs Ht].
  destruct (mxstr_cmp_preorder m a a a Ha Ha Ha) as [Hr _].
  repeat split; try assumption; lia.
Qed.

Lemma mxstr_cmp_total_preorder_witness :
  let m := Mem.of_list 100 [97; 98; 99] in
  Z.sgn (mxstr_cmp m (Mxstr 100 3) (Mxstr 100 2)) =
  - Z.sgn (mxstr_cmp m (Mxstr 100 2) (Mxstr 100 3)).
Proof.
  cbv zeta.
  apply (mxstr_cmp_total_preorder (Mem.of_list 100 [97; 98; 99])
           (Mxstr 100 2) (Mxstr 100 3) (Mxstr 100 3)); cbn; lia.
Defined.

Lemma lex_cmp_zero_iff l1 l2 : lex_cmp l1 l2 = 0 <-> l1 = l2.
Proof.
  revert l2. induction l1 as [|x l1 IH]; intros [|y l2]; cbn;
    try (split; [lia|discriminate]); [tauto|].
  destruct (Z.eqb_spec (x - y) 0) as [E|E].
  - rewrite IH. split; [intros ->; f_equal; lia|now intros [= _ ->]].
  - split; [lia|]. intros [= -> _]. lia.
Qed.

(** X9. For views below 2^31 bytes [mxstr_cmp] is an exact equality test: it
    returns 0 if and only if the two views have the same length and the same
    bytes. *)
Theorem mxstr_cmp_zero_iff m a b :
  0 <= len a < 2 ^ 31 -> 0 <= len b < 2 ^ 31 ->
  (mxstr_cmp m a b = 0 <->
   len a = len b /\ str_bytes m a = str_bytes m b).
Proof.
  intros Ha Hb. pose proof (mxstr_cmp_lex m a b Ha Hb) as Hlex.
  pose proof (lex_cmp_zero_iff (str_bytes m a) (str_bytes m b)) as Hz.
  split.
  - intros H0. assert (str_bytes m a = str_bytes m b) as E by (apply Hz; lia).
    split; [|exact E]. apply (f_equal (@length Z)) in E.
    unfold str_bytes in E. rewrite !read_length in E. lia.
  - intros [_ E]. apply Hz in E. lia.
Qed.

Lemma mxstr_cmp_zero_iff_witness :
  let m := Mem.of_list 100 [97; 98; 97; 98] in
  mxstr_cmp m (Mxstr 100 2) (Mxstr 102 2) = 0.
Proof.
  cbv zeta.
  apply (mxstr_cmp_zero_iff (Mem.of_list 100 [97; 98; 97; 98])
           (Mxstr 100 2) (Mxstr 102 2)); cbn; try lia.
  split; reflexivity.
Defined.

Lemma lex_cmp_prefix l1 x l2 : lex_cmp l1 (l1 ++ x :: l2) < 0.
Proof.
  induction l1 as [|y l1 IH]; cbn; [lia|].
  now rewrite Z.sub_diag.
Qed.

(** X10. For views below 2^31 bytes a view that is a proper prefix of another
    sorts before it, whatever the bytes: the tie on the common bytes is
    broken by length. *)
Theorem mxstr_cmp_prefix_first m a b :
  0 <= len a < len b -> len b < 2 ^ 31 ->
  Mem.read m (ptr b) (Z.to_nat (len a)) = str_bytes m a ->
  mxstr_cmp m a b < 0 /\ mxstr_cmp m b a > 0.
Proof.
  intros Ha Hb Hpre.
  pose proof (mxstr_cmp_lex m a b) as Hab.
  pose proof (mxstr_cmp_lex m b a) as Hba.
  pose proof (lex_cmp_antisym (str_bytes m a) (str_bytes m b)) as Hanti.
  assert (lex_cmp (str_bytes m a) (str_bytes m b) < 0) as Hlt.
  { unfold str_bytes at 2.
    replace (Z.to_nat (len b))
      with (Z.to_nat (len a) + S (Z.to_nat (len b - len a - 1)))%nat by lia.
    rewrite read_app, Hpre, read_S. apply lex_cmp_prefix. }
  lia.
Qed.

Lemma mxstr_cmp_prefix_first_witness :
  let m := Mem.of_list 100 [97; 98; 99] in
  mxstr_cmp m (Mxstr 100 2) (Mxstr 100 3) < 0 /\
  mxstr_cmp m (Mxstr 100 3) (Mxstr 100 2) > 0.
Proof.
  cbv zeta.
  apply (mxstr_cmp_prefix_first (Mem.of_list 100 [97; 98; 99])
           (Mxstr 100 2) (Mxstr 100 3)); cbn; try lia. reflexivity.
Defined.

(** ** mxutil_size_p2 *)

(** X11. For [0 < value < 2^31], [mxutil_size_p2] returns the smallest power of
    two strictly greater than [value] (so a power of two is doubled); the
    result is at most twice the argument. *)
Theorem mxutil_size_p2_spec clz0 value :
  0 < value < 2 ^ 31 ->
  let r := mxutil_size_p2 clz0 value in
  (exists k, 0 <= k /\ r = 2 ^ k) /\
  value < r <= 2 * value /\
  (forall k, 0 <= k -> value < 2 ^ k -> r <= 2 ^ k).
Proof.
  intros Hv r. subst r. rewrite mxutil_size_p2_pos by exact Hv.
  destruct (next_pow2_gt_spec value) as (H1 & H2 & H3); [lia|].
  split; [|split; [lia|exact H3]].
  exists (Z.log2 value + 1). split; [|reflexivity].
  pose proof (Z.log2_nonneg value). lia.
Qed.

Lemma mxutil_size_p2_spec_witness :
  mxutil_size_p2 32 8 = 16 /\ 8 < mxutil_size_p2 32 8 <= 2 * 8.
Proof.
  split; [reflexivity|].
  apply (mxutil_size_p2_spec 32 8). lia.
Defined.

(** ** The buffer and the allocator *)

Lemma mxutil_realloc_Some h p size h' q :
  mxutil_realloc h p size = Some (h', q) ->
  q = brk h /\ size <> 0 /\ brk h' = brk h + size /\
  blocks h' =
    <[brk h := size]> (if p =? NULL then blocks h else delete p (blocks h)).
Proof.
  unfold mxutil_realloc. intros H.
  destruct (Z.eqb_spec size 0); [discriminate|].
  destruct (p =? NULL).
  - inversion H; subst. cbn. auto.
  - destruct (blocks h !! p); [|discriminate]. cbn in H.
    inversion H; subst. cbn. auto.
Qed.

Lemma heap_wf_fresh h : heap_wf h -> blocks h !! brk h = None.
Proof.
  intros [_ H]. destruct (blocks h !! brk h) as [sz|] eqn:E; [|reflexivity].
  apply H in E. lia.
Qed.

(** A new block at [brk] that replaces the buffer's storage: agreement with
    the allocator is kept and the other blocks are the same. *)
Lemma safe_moved F s h' q size l :
  safe F s ->
  mxutil_realloc (st_heap s)
    (if negb (ptr (buf (st_buf s)) =? ptr (init (st_buf s)))
     then ptr (buf (st_buf s)) else NULL) size = Some (h', q) ->
  is_size size -> is_size l ->
  safe F (State h' (Mxbuf (mxstr q size)
                          (snd (mxstr_substr (mxstr q size) l size))
                          (init (st_buf s)))).
Proof.
  intros (Hinv & Hheap & Hwf & Hfor) Hre Hsize Hl.
  apply mxutil_realloc_Some in Hre as (-> & Hnz & Hbrk & Hblk).
  pose proof (heap_wf_fresh _ Hwf) as Hfresh.
  destruct Hheap as (Hb0 & Hinit & Hown). destruct Hwf as [_ Hwf].
  unfold is_size in Hsize.
  assert ((if (if negb (ptr (buf (st_buf s)) =? ptr (init (st_buf s)))
               then ptr (buf (st_buf s)) else NULL) =? NULL
           then blocks (st_heap s)
           else delete (if negb (ptr (buf (st_buf s)) =? ptr (init (st_buf s)))
                        then ptr (buf (st_buf s)) else NULL)
                       (blocks (st_heap s))) = F) as HF.
  { unfold foreign in Hfor. unfold owned in Hown.
    destruct (Z.eqb_spec (ptr (buf (st_buf s))) (ptr (init (st_buf s))))
      as [E|E]; cbn [negb] in *; [exact Hfor|].
    destruct (Hown E) as (Hnn & _).
    destruct (Z.eqb_spec (ptr (buf (st_buf s))) NULL); [contradiction|].
    exact Hfor. }
  rewrite HF in Hblk.
  assert (F !! brk (st_heap s) = None) as HFfresh.
  { rewrite <- Hfor. unfold foreign. destruct (negb _); [|exact Hfresh].
    apply lookup_delete_None. now right. }
  assert (forall a sz, F !! a = Some sz -> 0 < a /\ 0 < sz /\
                                          a + sz <= brk (st_heap s)) as HFwf.
  { intros a sz Ha. apply Hwf. rewrite <- Hfor in Ha. unfold foreign in Ha.
    destruct (negb _); [|exact Ha].
    apply lookup_delete_Some in Ha. tauto. }
  unfold safe. cbn [st_heap st_buf]. split; [|split; [|split]].
  - apply buf_inv_substr; [assumption|assumption|apply Hinv].
  - unfold heap_ok, owned, mxstr. cbn [buf init ptr len]. rewrite Hbrk, Hblk.
    split; [lia|]. split; [lia|]. intros _.
    split; [unfold NULL; lia|]. split; [apply lookup_insert_eq|lia].
  - unfold heap_wf. rewrite Hbrk, Hblk. split; [lia|]. intros a sz Ha.
    apply lookup_insert_Some in Ha as [[<- <-]|[Hne Ha]]; [lia|].
    apply HFwf in Ha. lia.
  - unfold foreign, mxstr. cbn [buf init ptr]. rewrite Hblk.
    destruct (Z.eqb_spec (brk (st_heap s)) (ptr (init (st_buf s))));
      [lia|]. cbn [negb].
    rewrite delete_insert_eq. now apply delete_id.
Qed.

Lemma keeps_ret {A} (a : A) : keeps (mret a).
Proof. intros F s a' s' H E. unfold mret, M_ret in E. now inversion E; subst. Qed.

Lemma keeps_bind {A B} (x : M A) (k : A -> M B) :
  keeps x -> (forall a, keeps (k a)) -> keeps (x ≫= k).
Proof.
  intros Hx Hk F s b s' H E. apply bind_Some in E as (a & s1 & E1 & E2).
  eapply Hk; [|exact E2]. eapply Hx; eassumption.
Qed.

Lemma keeps_on_available {A} (f : Mem.t -> mxstr_t -> Mem.t * mxstr_t * A) :
  (forall m dest, is_size (len dest) -> advances dest (snd (fst (f m dest)))) ->
  keeps (on_available f).
Proof.
  intros Hf F s a s' (Hinv & Hheap & Hwf & Hfor) E.
  pose proof (preserves_on_available f Hf s a s' Hinv E) as Hinv'.
  unfold on_available in E. revert Hfor.
  destruct (f _ _) as [[m dest] r]. inversion E; subst; clear E.
  intros Hfor.
  split; [exact Hinv'|]. split; [exact Hheap|]. split; [exact Hwf|exact Hfor].
Qed.

Lemma keeps_require clz0 size : keeps (mxbuf_require clz0 size).
Proof.
  intros F s a s' Hsafe E. pose proof Hsafe as (Hinv & _).
  unfold mxbuf_require in E.
  apply bind_Some in E as (b & s1 & E1 & E).
  inversion E1; subst; clear E1.
  destruct (len (available (st_buf s1)) <? size); [|now inversion E; subst].
  apply bind_Some in E as (l & s2 & E1 & E).
  unfold assert_some in E1.
  destruct (mxstr_substr_offset _ _) as [l'|] eqn:Ho; [|discriminate].
  inversion E1; subst; clear E1.
  apply mxstr_substr_offset_Some in Ho as [_ Hl].
  apply bind_Some in E as (q & s3 & E1 & E).
  unfold realloc_ in E1.
  destruct (mxutil_realloc _ _ _) as [[h' q']|] eqn:Hre; [|discriminate].
  inversion E1; subst; clear E1.
  apply bind_Some in E as (u & s4 & E1 & E).
  inversion E1; subst; clear E1. inversion E; subst; clear E.
  cbn [st_buf st_heap buf available init].
  apply (safe_moved F s2 h' q _ l Hsafe Hre).
  - rewrite max_spec.
    pose proof (mxutil_size_p2_range clz0 (to_u32 (len (buf (st_buf s2))))).
    pose proof (mxutil_size_p2_range clz0 (to_u32 size)).
    unfold is_size, size_mod, u32_mod in *. lia.
  - destruct Hinv as (Hb & _). unfold is_size in *. lia.
Qed.

Lemma keeps_trim : keeps mxbuf_trim.
Proof.
  intros F s a s' Hsafe E. pose proof Hsafe as (Hinv & _).
  unfold mxbuf_trim in E.
  apply bind_Some in E as (b & s1 & E1 & E).
  inversion E1; subst; clear E1.
  destruct (negb (ptr (buf (st_buf s1)) =? ptr (init (st_buf s1)))) eqn:Hown;
    [|now inversion E; subst].
  apply bind_Some in E as (l & s2 & E1 & E).
  unfold assert_some in E1.
  destruct (mxstr_substr_offset _ _) as [l'|] eqn:Ho; [|discriminate].
  inversion E1; subst; clear E1.
  apply mxstr_substr_offset_Some in Ho as [_ Hl].
  apply bind_Some in E as (q & s3 & E1 & E).
  unfold realloc_ in E1.
  destruct (mxutil_realloc _ _ _) as [[h' q']|] eqn:Hre; [|discriminate].
  inversion E1; subst; clear E1.
  apply bind_Some in E as (u & s4 & E1 & E).
  inversion E1; subst; clear E1. inversion E; subst; clear E.
  cbn [st_buf st_heap buf available init].
  assert (is_size l)
    by (destruct Hinv as (Hb & _); unfold is_size in *; lia).
  apply (safe_moved F s2 h' q l l Hsafe); [|assumption|assumption].
  rewrite Hown. exact Hre.
Qed.



Lemma keeps_write clz0 str : 0 <= len str -> keeps (mxbuf_write clz0 str).
Proof.
  intros H. apply keeps_bind; [apply keeps_require|]. intros _.
  apply keeps_on_available. intros m dest Hd. now apply advances_write.
Qed.

Lemma keeps_write_chars clz0 c n : 0 <= n -> keeps (mxbuf_write_chars clz0 c n).
Proof.
  intros H. apply keeps_bind; [apply keeps_require|]. intros _.
  apply keeps_on_available. intros m dest Hd. now apply advances_write_chars.
Qed.

Lemma keeps_putc clz0 c : keeps (mxbuf_putc clz0 c).
Proof.
  apply keeps_bind; [apply keeps_require|]. intros _.
  apply keeps_on_available. intros m dest Hd. now apply advances_putc.
Qed.

Lemma keeps_put_utf8 clz0 c : keeps (mxbuf_put_utf8 clz0 c).
Proof.
  unfold mxbuf_put_utf8.
  repeat match goal with |- context [?a <? ?b] => destruct (a <? b) end;
    repeat (apply keeps_bind; [apply keeps_putc|intros _]);
    apply keeps_ret.
Qed.



(** ** Releasing, shrinking and reusing a buffer *)

(** X13. On a safe state [mxbuf_free] always returns: the buffer is back on the
    caller's range with nothing written, its own block if it had one is
    released and no other one (the caller's range never is), memory is not
    written, and a second [mxbuf_free] changes nothing. *)
Theorem mxbuf_free_spec F s :
  safe F s ->
  exists s',
    mxbuf_free s = Some (tt, s') /\
    st_buf s' = Mxbuf (init (st_buf s)) (init (st_buf s)) (init (st_buf s)) /\
    blocks (st_heap s') = F /\
    mem (st_heap s') = mem (st_heap s) /\
    brk (st_heap s') = brk (st_heap s) /\
    (~ owned (st_buf s) -> st_heap s' = st_heap s) /\
    mxbuf_free s' = Some (tt, s').
Proof.
  intros (Hinv & Hheap & Hwf & Hfor).
  unfold mxbuf_free, mbind, M_bind, get_buffer, set_buf, set_available, mret,
    M_ret, free_, heap_free.
  unfold foreign in Hfor. destruct Hheap as (_ & _ & Hown). unfold owned in *.
  destruct (Z.eqb_spec (ptr (buf (st_buf s))) (ptr (init (st_buf s))))
    as [E|E]; cbn [negb] in *.
  - eexists. split; [reflexivity|]. cbn [st_buf st_heap buf available init].
    rewrite Z.eqb_refl. cbn [negb].
    repeat split; try assumption; reflexivity.
  - destruct (Hown E) as (Hnn & Hblk & _).
    destruct (Z.eqb_spec (ptr (buf (st_buf s))) NULL); [contradiction|].
    rewrite Hblk. cbn.
    eexists. split; [reflexivity|]. cbn [st_buf st_heap buf available init
                                         blocks mem brk].
    rewrite Z.eqb_refl. cbn [negb].
    repeat split; try assumption; try reflexivity. intros Hn.
    now contradiction Hn.
Qed.

Lemma mxbuf_free_spec_witness :
  let s :=
    State (Heap (fun _ => 0) {[ 1000 := 4 ]} 3000)
          (Mxbuf (Mxstr 1000 4) (Mxstr 1002 2) (Mxstr 500 1)) in
  exists s',
    mxbuf_free s = Some (tt, s') /\
    st_buf s' = Mxbuf (Mxstr 500 1) (Mxstr 500 1) (Mxstr 500 1) /\
    blocks (st_heap s') = ∅.
Proof.
  cbv zeta.
  destruct (mxbuf_free_spec ∅
              (State (Heap (fun _ => 0) {[ 1000 := 4 ]} 3000)
                     (Mxbuf (Mxstr 1000 4) (Mxstr 1002 2) (Mxstr 500 1))))
    as (s' & Hf & Hb & Hblk & _).
  - unfold safe. cbn [st_heap st_buf]. split; [|split; [|split]].
    + unfold buf_inv, is_size, size_mod. cbn. lia.
    + unfold heap_ok, owned, NULL. cbn. repeat split; lia || reflexivity.
    + unfold heap_wf. cbn [blocks brk]. split; [lia|]. intros a sz Ha.
      apply lookup_singleton_Some in Ha as [<- <-]. lia.
    + unfold foreign. cbn. apply delete_singleton_eq.
  - exists s'. repeat split; assumption.
Defined.

(** X14. [mxbuf_trim] does nothing to a buffer that uses the caller's range.  On
    a buffer that owns its storage and holds at least one byte it returns,
    the storage becomes a block of exactly the bytes written, holding the
    same bytes, and no space is available. *)
Theorem mxbuf_trim_spec F s :
  safe F s ->
  (~ owned (st_buf s) -> mxbuf_trim s = Some (tt, s)) /\
  (owned (st_buf s) -> 0 < written (st_buf s) ->
   exists s',
     mxbuf_trim s = Some (tt, s') /\
     len (buf (st_buf s')) = written (st_buf s) /\
     len (available (st_buf s')) = 0 /\
     init (st_buf s') = init (st_buf s) /\
     contents s' = contents s /\
     safe F s').
Proof.
  intros Hsafe. pose proof Hsafe as (Hinv & Hheap & Hwf & Hfor).
  split.
  - intros Hno. unfold owned in Hno.
    unfold mxbuf_trim, mbind, M_bind, get_buffer.
    destruct (Z.eqb_spec (ptr (buf (st_buf s))) (ptr (init (st_buf s))));
      [reflexivity|]. contradiction Hno.
  - intros Hown Hw.
    assert (exists s', mxbuf_trim s = Some (tt, s') /\
            st_buf s' =
              Mxbuf (Mxstr (brk (st_heap s)) (written (st_buf s)))
                    (Mxstr (brk (st_heap s) + written (st_buf s)) 0)
                    (init (st_buf s)) /\
            mem (st_heap s') =
              Mem.memcpy (mem (st_heap s)) (brk (st_heap s))
                (ptr (buf (st_buf s)))
                (Z.min (len (buf (st_buf s))) (written (st_buf s))))
      as (s' & Htrim & Hbuf & Hmem).
    { destruct Hheap as (_ & _ & Ho). destruct (Ho Hown) as (Hnn & Hblk & _).
      pose proof Hinv as (Hb & _ & Ha & _). unfold is_size in Hb.
      unfold mxbuf_trim, mbind, M_bind, get_buffer, assert_some, realloc_,
        mxutil_realloc, set_buf, set_available, mxstr.
      unfold owned in Hown.
      destruct (Z.eqb_spec (ptr (buf (st_buf s))) (ptr (init (st_buf s))));
        [contradiction|]. cbn [negb].
      rewrite (mxstr_substr_offset_inv _ Hinv).
      destruct (Z.eqb_spec (written (st_buf s)) 0); [lia|].
      destruct (Z.eqb_spec (ptr (buf (st_buf s))) NULL); [contradiction|].
      rewrite Hblk. cbn [mbind option_bind].
      cbn [st_heap st_buf buf available init].
      rewrite mxstr_substr_eq
        by (unfold str_ok, is_size, written in *; cbn [len]; lia).
      cbn [snd ptr len]. eexists. split; [reflexivity|].
      cbn [st_buf st_heap mem]. split; [|reflexivity].
      f_equal. f_equal; lia. }
    exists s'. split; [exact Htrim|]. rewrite Hbuf.
    cbn [buf available init len]. split; [reflexivity|].
    split; [reflexivity|]. split; [reflexivity|]. split.
    + unfold contents. rewrite Hbuf, Hmem.
      match goal with
      | |- context [written (Mxbuf ?x ?y ?z)] =>
          replace (written (Mxbuf x y z)) with (written (st_buf s))
            by (unfold written; cbn [buf available len]; lia)
      end.
      cbn [buf ptr]. apply read_memcpy. destruct Hinv as (_ & _ & Ha & _).
      unfold written in *. lia.
    + exact (keeps_trim F s tt s' Hsafe Htrim).
Qed.

Lemma mxbuf_trim_spec_witness :
  let s :=
    State (Heap (Mem.of_list 1000 [97; 98]) {[ 1000 := 4 ]} 3000)
          (Mxbuf (Mxstr 1000 4) (Mxstr 1002 2) (Mxstr 500 1)) in
  exists s',
    mxbuf_trim s = Some (tt, s') /\
    len (buf (st_buf s')) = 2 /\
    contents s' = [97; 98].
Proof.
  cbv zeta.
  destruct (mxbuf_trim_spec ∅
              (State (Heap (Mem.of_list 1000 [97; 98]) {[ 1000 := 4 ]} 3000)
                     (Mxbuf (Mxstr 1000 4) (Mxstr 1002 2) (Mxstr 500 1))))
    as (_ & H).
  - unfold safe. cbn [st_heap st_buf]. split; [|split; [|split]].
    + unfold buf_inv, is_size, size_mod. cbn. lia.
    + unfold heap_ok, owned, NULL. cbn. repeat split; lia || reflexivity.
    + unfold heap_wf. cbn [blocks brk]. split; [lia|]. intros a sz Ha.
      apply lookup_singleton_Some in Ha as [<- <-]. lia.
    + unfold foreign. cbn. apply delete_singleton_eq.
  - destruct H as (s' & Ht & Hl & _ & _ & Hc & _).
    + unfold owned. cbn. lia.
    + unfold written. cbn. lia.
    + exists s'. split; [exact Ht|]. split; [exact Hl|]. rewrite Hc.
      reflexivity.
Defined.

(** X15. [mxbuf_reset] keeps the storage: it touches neither the allocator nor
    the memory, and a write that follows, of at most [len buf] bytes that do
    not overlap the storage, is stored whole, in the same storage, without
    any allocation. *)
Theorem mxbuf_reset_reuse clz0 src s :
  buf_inv (st_buf s) -> str_ok src -> len src <= len (buf (st_buf s)) ->
  disjoint (ptr src) (len src)
           (ptr (buf (st_buf s))) (len (buf (st_buf s))) ->
  exists s1 s2,
    mxbuf_reset s = Some (tt, s1) /\
    st_heap s1 = st_heap s /\
    written (st_buf s1) = 0 /\
    mxbuf_write clz0 src s1 = Some (len src, s2) /\
    buf (st_buf s2) = buf (st_buf s) /\
    blocks (st_heap s2) = blocks (st_heap s) /\
    brk (st_heap s2) = brk (st_heap s) /\
    contents s2 = str_bytes (mem (st_heap s)) src.
Proof.
  intros Hinv Hsrc Hfit _. pose proof Hinv as (Hb & Hi & _).
  unfold str_ok, is_size in Hsrc, Hb.
  eexists. eexists. split; [reflexivity|].
  cbn [st_heap st_buf buf available]. split; [reflexivity|].
  split; [unfold written; cbn [buf available]; lia|].
  unfold mxbuf_write, mbind, M_bind.
  rewrite mxbuf_require_enough by (cbn [st_buf available]; lia).
  unfold on_available. cbn [st_heap st_buf buf available init].
  rewrite mxstr_write_eq by (unfold str_ok, is_size; lia).
  replace (Z.min (len (buf (st_buf s))) (len src)) with (len src) by lia.
  split; [reflexivity|]. cbn [st_heap st_buf buf blocks brk].
  split; [reflexivity|]. split; [reflexivity|]. split; [reflexivity|].
  unfold contents, written, str_bytes.
  cbn [st_heap st_buf buf available mem ptr len].
  replace (len (buf (st_buf s)) - (len (buf (st_buf s)) - len src))
    with (len src) by lia.
  apply read_memcpy. lia.
Qed.

Lemma mxbuf_reset_reuse_witness :
  let s :=
    State (Heap (Mem.of_list 100 [120; 121; 122]) {[ 1000 := 4 ]} 3000)
          (Mxbuf (Mxstr 1000 4) (Mxstr 1004 0) (Mxstr 500 1)) in
  exists s1 s2,
    mxbuf_reset s = Some (tt, s1) /\
    mxbuf_write 32 (Mxstr 100 3) s1 = Some (3, s2) /\
    buf (st_buf s2) = Mxstr 1000 4 /\
    contents s2 = [120; 121; 122].
Proof.
  cbv zeta.
  destruct (mxbuf_reset_reuse 32 (Mxstr 100 3)
              (State (Heap (Mem.of_list 100 [120; 121; 122]) {[ 1000 := 4 ]} 3000)
                     (Mxbuf (Mxstr 1000 4) (Mxstr 1004 0) (Mxstr 500 1))))
    as (s1 & s2 & Hr & _ & _ & Hw & Hb & _ & _ & Hc).
  - unfold buf_inv, is_size, size_mod. cbn. lia.
  - unfold str_ok, is_size, size_mod. cbn. lia.
  - cbn. lia.
  - unfold disjoint. cbn. lia.
  - exists s1, s2. repeat split; assumption.
Defined.

(** ** Appending to a buffer that can grow *)

Lemma read_memset_snoc m p n c k :
  Mem.read (Mem.memset m (p + Z.of_nat n) c (Z.of_nat k)) p (n + k) =
  Mem.read m p n ++ repeat c k.
Proof.
  rewrite read_app. f_equal.
  - apply read_ext. intros a Ha. unfold Mem.memset.
    destruct (Z.leb_spec (p + Z.of_nat n) a); [lia|reflexivity].
  - apply read_memset. lia.
Qed.

Lemma write_chars_available c n s :
  let b := st_buf s in
  let k := Z.min (len (available b)) n in
  buf_inv b -> 0 <= n ->
  exists s',
    on_available (fun m dest => mxstr_write_chars m dest c n) s =
      Some (k, s') /\
    contents s' = contents s ++ repeat c (Z.to_nat k) /\
    buf_inv (st_buf s').
Proof.
  intros b k Hinv Hn. pose proof Hinv as (Hb & Hi & Ha & Hp).
  fold b in Hb, Hi, Ha, Hp. unfold is_size in Hb, Hi.
  unfold on_available. fold b.
  rewrite mxstr_write_chars_eq by (unfold str_ok, is_size; lia). fold k.
  eexists. split; [reflexivity|].
  cbn [st_buf st_heap buf available init mem blocks brk ptr len]. split.
  - unfold contents, written.
    cbn [st_buf st_heap buf available mem ptr len]. fold b.
    replace (Z.to_nat (len (buf b) - (len (available b) - k)))
      with (Z.to_nat (len (buf b) - len (available b)) + Z.to_nat k)%nat
      by lia.
    rewrite Hp.
    assert (k = Z.of_nat (Z.to_nat k)) as Ek by lia.
    assert (len (buf b) - len (available b) =
            Z.of_nat (Z.to_nat (len (buf b) - len (available b)))) as Ew
      by lia.
    rewrite Ew at 1. rewrite Ek at 1. apply read_memset_snoc.
  - unfold buf_inv, is_size. cbn [buf available init ptr len].
    repeat split; lia.
Qed.

(** X16. [mxbuf_write_chars] on a buffer that can grow without loss (capacity and
    count below 2^31): when the [n] bytes fit in the space available, or
    nothing has been written yet, it appends [n] copies of [c] and returns
    [n]; in general it appends as many copies as the space has room for
    after growing, and returns their number. *)
Theorem mxbuf_write_chars_stores clz0 c n s :
  let b := st_buf s in
  let room :=
    if n <=? len (available b) then len (available b)
    else Z.max (mxutil_size_p2 clz0 (len (buf b))) (next_pow2_gt n)
         - written b in
  let k := Z.min n room in
  buf_inv b -> heap_ok (st_heap s) b -> 0 <= n ->
  len (buf b) < 2 ^ 31 -> n < 2 ^ 31 ->
  owned b \/ written b = 0 \/ n <= len (available b) ->
  (n <= len (available b) \/ written b = 0 -> k = n) /\
  exists s',
    mxbuf_write_chars clz0 c n s = Some (k, s') /\
    contents s' = contents s ++ repeat c (Z.to_nat k) /\
    buf_inv (st_buf s').
Proof.
  intros b room k Hinv Hheap Hn Hcap Hlen Hgrow.
  pose proof Hinv as (Hb & Hi & Ha & Hp). fold b in Hb, Hi, Ha, Hp.
  unfold is_size in Hb, Hi.
  pose proof (mxutil_size_p2_range clz0 (len (buf b))) as Hrc.
  subst k room.
  destruct (Z.leb_spec n (len (available b))) as [Hfit|Hno].
  - split; [lia|]. unfold mxbuf_write_chars, mbind, M_bind.
    rewrite mxbuf_require_enough by (fold b; lia).
    destruct (write_chars_available c n s Hinv) as (s' & Hw & Hc & Hinv');
      [lia|].
    fold b in Hw, Hc. rewrite Z.min_comm in Hw, Hc.
    exists s'. split; [exact Hw|]. split; [exact Hc|exact Hinv'].
  - assert (to_u32 n = n) as Hus by (apply to_u32_small; unfold u32_mod; lia).
    assert (to_u32 (len (buf b)) = len (buf b)) as Huc
      by (apply to_u32_small; unfold u32_mod; lia).
    assert (mxutil_size_p2 clz0 n = next_pow2_gt n) as Hps
      by (apply mxutil_size_p2_pos; lia).
    assert (n < next_pow2_gt n) as Hgt by (apply next_pow2_gt_spec; lia).
    split.
    { intros [Hf|Hw0]; [lia|]. rewrite Hw0. lia. }
    unfold mxbuf_write_chars, mbind, M_bind.
    destruct (mxbuf_require_grow_ok clz0 n s Hinv Hheap)
      as (s1 & -> & Hbuf & _ & _ & Hinv1 & _ & _ & Hcont);
      fold b; try rewrite Hus; try rewrite Huc; try rewrite Hps; try lia.
    { destruct (Z.eq_dec (len (buf b)) 0) as [Hz|Hnz].
      - unfold written. lia.
      - rewrite mxutil_size_p2_pos by lia.
        pose proof (next_pow2_gt_spec (len (buf b))) as (Hg & _); [lia|].
        unfold written. lia. }
    fold b in Hbuf. rewrite Hus, Huc, Hps in Hbuf.
    destruct (write_chars_available c n s1 Hinv1) as (s' & Hw & Hc & Hinv');
      [lia|].
    rewrite Hbuf in Hw, Hc. cbn [available len] in Hw, Hc.
    rewrite Z.min_comm in Hw, Hc.
    exists s'. split; [exact Hw|]. split; [|exact Hinv'].
    rewrite Hc, Hcont
      by (fold b; destruct Hgrow as [?|[?|?]]; [now left|now right|lia]).
    reflexivity.
Qed.

Lemma mxbuf_write_chars_stores_witness :
  let s :=
    State (Heap (fun _ => 0) ∅ 1000)
          (Mxbuf (Mxstr 0 0) (Mxstr 0 0) (Mxstr 0 0)) in
  exists s',
    mxbuf_write_chars 32 45 5 s = Some (5, s') /\
    contents s' = [45; 45; 45; 45; 45].
Proof.
  cbv zeta.
  destruct (mxbuf_write_chars_stores 32 45 5
              (State (Heap (fun _ => 0) ∅ 1000)
                     (Mxbuf (Mxstr 0 0) (Mxstr 0 0) (Mxstr 0 0))))
    as (Hk & s' & Hw & Hc & _).
  - unfold buf_inv, is_size, size_mod. cbn. lia.
  - unfold heap_ok, owned, NULL. cbn. repeat split; lia.
  - lia.
  - cbn. lia.
  - lia.
  - right. left. reflexivity.
  - exists s'. rewrite Hk in Hw, Hc by (right; reflexivity).
    split; [exact Hw|exact Hc].
Defined.

(** X17. For a string that lies outside the storage of the buffer and outside
    the unused address space (so that it overlaps neither the bytes written
    nor a block released or allocated by the growth), with capacity and
    length below 2^31: [mxbuf_write] appends the whole string and returns its
    length whenever the string fits in the space available, or nothing has
    been written yet, or the buffer owns storage whose size is a power of
    two and the string is no longer than that size. *)
Theorem mxbuf_write_appends_all clz0 src s :
  let b := st_buf s in
  buf_inv b -> heap_ok (st_heap s) b -> str_ok src ->
  ptr src + len src <= brk (st_heap s) ->
  disjoint (ptr src) (len src) (ptr (buf b)) (len (buf b)) ->
  len (buf b) < 2 ^ 31 -> len src < 2 ^ 31 ->
  len src <= len (available b) \/
  written b = 0 \/
  (owned b /\ (exists j, 0 <= j /\ len (buf b) = 2 ^ j) /\
   len src <= len (buf b)) ->
  exists s',
    mxbuf_write clz0 src s = Some (len src, s') /\
    contents s' = contents s ++ str_bytes (mem (st_heap s)) src /\
    buf_inv (st_buf s').
Proof.
  intros b Hinv Hheap Hsrc Hlow _ Hcap Hlen Hcase.
  pose proof Hinv as (Hb & Hi & Ha & Hp). fold b in Hb, Hi, Ha, Hp.
  unfold is_size in Hb. pose proof Hsrc as Hsrc'.
  unfold str_ok, is_size in Hsrc'.
  destruct (mxbuf_write_stores clz0 src s Hinv Hheap Hsrc Hlow Hcap Hlen)
    as (s' & Hw & Hc & Hinv').
  { fold b. destruct Hcase as [H|[H|(H & _)]]; tauto. }
  fold b in Hw, Hc.
  assert (Z.min (len src)
            (if len src <=? len (available b) then len (available b)
             else Z.max (mxutil_size_p2 clz0 (len (buf b)))
                        (next_pow2_gt (len src)) - written b) = len src)
    as Hall.
  { destruct (Z.leb_spec (len src) (len (available b))) as [Hfit|Hno]; [lia|].
    assert (len src < next_pow2_gt (len src))
      by (apply next_pow2_gt_spec; lia).
    destruct Hcase as [Hc1|[Hc1|(_ & (j & Hj & Hpow) & Hle)]]; [lia|lia|].
    assert (0 < len (buf b)) as Hbpos
      by (rewrite Hpow; apply Z.pow_pos_nonneg; lia).
    rewrite mxutil_size_p2_pos by lia.
    assert (next_pow2_gt (len (buf b)) = 2 * len (buf b)) as ->.
    { unfold next_pow2_gt. rewrite Hpow, Z.log2_pow2 by lia.
      rewrite Z.pow_add_r by lia. lia. }
    unfold written. lia. }
  rewrite Hall in Hw, Hc. exists s'. split; [exact Hw|]. split; [|exact Hinv'].
  rewrite Hc. f_equal. apply firstn_all2. unfold str_bytes.
  rewrite read_length. lia.
Qed.

Lemma mxbuf_write_appends_all_witness :
  let s :=
    State (Heap (Mem.of_list 100 [97; 98; 99; 100; 101]) {[ 1000 := 4 ]} 1004)
          (Mxbuf (Mxstr 1000 4) (Mxstr 1003 1) (Mxstr 500 1)) in
  exists s',
    mxbuf_write 32 (Mxstr 101 4) s = Some (4, s') /\
    contents s' = contents s ++ [98; 99; 100; 101].
Proof.
  cbv zeta.
  destruct (mxbuf_write_appends_all 32 (Mxstr 101 4)
              (State (Heap (Mem.of_list 100 [97; 98; 99; 100; 101])
                           {[ 1000 := 4 ]} 1004)
                     (Mxbuf (Mxstr 1000 4) (Mxstr 1003 1) (Mxstr 500 1))))
    as (s' & Hw & Hc & _).
  - unfold buf_inv, is_size, size_mod. cbn. lia.
  - unfold heap_ok, owned, NULL. cbn. repeat split; lia || reflexivity.
  - unfold str_ok, is_size, size_mod. cbn. lia.
  - cbn. lia.
  - unfold disjoint. cbn. lia.
  - cbn. lia.
  - cbn. lia.
  - right. right. split; [unfold owned; cbn; lia|].
    split; [exists 2; split; [lia|reflexivity]|cbn; lia].
  - exists s'. split; [exact Hw|exact Hc].
Defined.




(** ** UTF-8 written by mxbuf_put_utf8 *)

Lemma utf8_decode_encode c :
  0 <= c < 0x110000 ->
  utf8_decode (utf8_encode c) = Some c /\
  length (utf8_encode c) = utf8_length c /\
  Forall (fun b => 0 <= b < 256) (utf8_encode c).
Proof.
  intros Hc. unfold utf8_encode, utf8_length.
  destruct (Z.ltb_spec c 0x80) as [L1|L1];
    [|destruct (Z.ltb_spec c 0x800) as [L2|L2];
      [|destruct (Z.ltb_spec c 0x10000) as [L3|L3]]];
    (split; [|split; [reflexivity|]]);
    try (repeat constructor; Z.div_mod_to_equations; lia);
    cbn [utf8_decode]; unfold utf8_cont;
    repeat match goal with
           | |- context [?a <=? ?b] =>
               destruct (Z.leb_spec a b);
               [|exfalso; Z.div_mod_to_equations; lia]
           | |- context [?a <? ?b] =>
               destruct (Z.ltb_spec a b);
               [|exfalso; Z.div_mod_to_equations; lia]
           end;
    cbn [andb]; f_equal; Z.div_mod_to_equations; lia.
Qed.

(** X19. On a buffer that can grow without loss, [mxbuf_put_utf8] of a code point
    below 0x110000 (surrogates included) returns true and appends between
    one and four bytes, as many as the standard prescribes for the code
    point, which decode back to it; a value from 0x110000 on is refused:
    the result is false and the state is unchanged. *)
Theorem mxbuf_put_utf8_roundtrip clz0 c s :
  (0 <= c < 0x110000 -> can_put s 4 ->
   exists s' l,
     mxbuf_put_utf8 clz0 c s = Some (true, s') /\
     contents s' = contents s ++ l /\
     length l = utf8_length c /\
     Forall (fun b => 0 <= b < 256) l /\
     utf8_decode l = Some c) /\
  (0x110000 <= c -> mxbuf_put_utf8 clz0 c s = Some (false, s)).
Proof.
  split.
  - intros Hc Hcan.
    destruct (mxbuf_put_utf8_appends clz0 c s 0) as (s' & Hput & Hcont & _);
      [lia|exact Hc|exact Hcan|].
    destruct (utf8_decode_encode c Hc) as (Hdec & Hlen & Hbytes).
    exists s', (utf8_encode c). repeat split; assumption.
  - apply mxbuf_put_utf8_out_of_range.
Qed.

Lemma mxbuf_put_utf8_roundtrip_witness :
  let s :=
    State (Heap (fun _ => 0) ∅ 1000)
          (Mxbuf (Mxstr 0 0) (Mxstr 0 0) (Mxstr 0 0)) in
  exists s' l,
    mxbuf_put_utf8 32 0x20AC s = Some (true, s') /\
    contents s' = contents s ++ l /\
    utf8_decode l = Some 0x20AC.
Proof.
  cbv zeta.
  destruct (mxbuf_put_utf8_roundtrip 32 0x20AC
              (State (Heap (fun _ => 0) ∅ 1000)
                     (Mxbuf (Mxstr 0 0) (Mxstr 0 0) (Mxstr 0 0))))
    as [H _].
  destruct H as (s' & l & Hput & Hc & _ & _ & Hd); [lia| |].
  - unfold can_put. cbn [st_buf st_heap]. split; [|split].
    + unfold buf_inv, is_size, size_mod. cbn. lia.
    + unfold heap_ok, owned, NULL. cbn. repeat split; lia.
    + right. split; [now right|]. unfold written. cbn. lia.
  - exists s', l. repeat split; assumption.
Defined.

(** ** What buffer operations write to *)

Lemma mxutil_realloc_mem h p size h' q :
  mxutil_realloc h p size = Some (h', q) ->
  forall a, a < brk h -> mem h' a = mem h a.
Proof.
  unfold mxutil_realloc. intros H a Ha.
  destruct (size =? 0); [discriminate|].
  destruct (p =? NULL).
  - now inversion H; subst.
  - destruct (blocks h !! p); [|discriminate]. cbn in H.
    inversion H; subst. cbn [mem]. unfold Mem.memcpy.
    destruct (Z.leb_spec (brk h) a); [lia|reflexivity].
Qed.

Lemma frame_refl s : frame s s.
Proof. unfold frame. repeat split; auto. lia. Qed.

Lemma frame_trans s s1 s2 : frame s s1 -> frame s1 s2 -> frame s s2.
Proof.
  intros (B1 & M1 & S1) (B2 & M2 & S2). split; [lia|]. split.
  - intros a Ha Hout. rewrite M2; [now apply M1|lia|].
    intros Hin. apply S1 in Hin as [Hin|Hin]; [contradiction|lia].
  - intros a Hin. apply S2 in Hin as [Hin|Hin]; [|right; lia].
    apply S1 in Hin. exact Hin.
Qed.

Lemma frames_ret {A} (a : A) : frames (mret a).
Proof.
  intros F s a' s' H E. unfold mret, M_ret in E. inversion E; subst.
  apply frame_refl.
Qed.

Lemma frames_bind {A B} (x : M A) (k : A -> M B) :
  frames x -> keeps x -> (forall a, frames (k a)) -> frames (x ≫= k).
Proof.
  intros Hx Hkx Hk F s b s' H E. apply bind_Some in E as (a & s1 & E1 & E2).
  apply frame_trans with s1; [eapply Hx; eassumption|].
  eapply Hk; [|exact E2]. eapply Hkx; eassumption.
Qed.

Lemma frames_on_available {A} (f : Mem.t -> mxstr_t -> Mem.t * mxstr_t * A) :
  (forall m dest a, is_size (len dest) ->
     ~ (ptr dest <= a < ptr dest + len dest) -> fst (fst (f m dest)) a = m a) ->
  frames (on_available f).
Proof.
  intros Hf F s r s' ((Hb & _ & Ha & Hp) & _) E. unfold on_available in E.
  specialize (Hf (mem (st_heap s)) (available (st_buf s))).
  destruct (f _ _) as [[m dest] r']. inversion E; subst; clear E.
  cbn [fst] in Hf. unfold frame, in_storage.
  cbn [st_heap st_buf mem brk buf]. split; [lia|]. split; [|tauto].
  intros a _ Hout. apply Hf; [unfold is_size in *; lia|]. lia.
Qed.

Lemma frames_require clz0 size : frames (mxbuf_require clz0 size).
Proof.
  intros F s a s' Hsafe E. unfold mxbuf_require in E.
  apply bind_Some in E as (b & s1 & E1 & E).
  inversion E1; subst; clear E1.
  destruct (len (available (st_buf s1)) <? size);
    [|inversion E; subst; apply frame_refl].
  apply bind_Some in E as (l & s2 & E1 & E).
  unfold assert_some in E1.
  destruct (mxstr_substr_offset _ _) as [l'|]; [|discriminate].
  inversion E1; subst; clear E1.
  apply bind_Some in E as (q & s3 & E1 & E).
  unfold realloc_ in E1.
  destruct (mxutil_realloc _ _ _) as [[h' q']|] eqn:Hre; [|discriminate].
  inversion E1; subst; clear E1.
  apply bind_Some in E as (u & s4 & E1 & E).
  inversion E1; subst; clear E1. inversion E; subst; clear E.
  pose proof (mxutil_realloc_mem _ _ _ _ _ Hre) as Hmem.
  apply mxutil_realloc_Some in Hre as (-> & Hnz & Hbrk & _).
  rewrite max_spec in Hbrk.
  pose proof (mxutil_size_p2_range clz0 (to_u32 (len (buf (st_buf s2))))).
  pose proof (mxutil_size_p2_range clz0 (to_u32 size)).
  unfold frame, in_storage, mxstr. cbn [st_heap st_buf buf ptr len].
  split; [lia|]. split; [intros a Ha _; now apply Hmem|].
  intros a Ha. right. lia.
Qed.

Lemma write_inside m dest src a :
  ~ (ptr dest <= a < ptr dest + len dest) ->
  fst (fst (mxstr_write m dest src)) a = m a.
Proof.
  intros H. unfold mxstr_write, Mem.memcpy. cbn [fst]. rewrite min_spec.
  destruct (Z.leb_spec (ptr dest) a),
    (Z.ltb_spec a (ptr dest + Z.min (len dest) (len src)));
    cbn; try reflexivity. lia.
Qed.

Lemma write_chars_inside m dest c n a :
  ~ (ptr dest <= a < ptr dest + len dest) ->
  fst (fst (mxstr_write_chars m dest c n)) a = m a.
Proof.
  intros H. unfold mxstr_write_chars, Mem.memset. cbn [fst].
  rewrite min_spec.
  destruct (Z.leb_spec (ptr dest) a),
    (Z.ltb_spec a (ptr dest + Z.min (len dest) n));
    cbn; try reflexivity. lia.
Qed.

Lemma putc_inside m dest c a :
  is_size (len dest) ->
  ~ (ptr dest <= a < ptr dest + len dest) ->
  fst (fst (mxstr_putc m dest c)) a = m a.
Proof.
  intros Hd H. unfold mxstr_putc, mxstr_empty, Mem.store.
  unfold is_size in Hd.
  destruct (Z.eqb_spec (len dest) 0); cbn [negb fst]; [reflexivity|].
  destruct (Z.eqb_spec a (ptr dest)); [lia|reflexivity].
Qed.

Lemma frames_putc clz0 c : frames (mxbuf_putc clz0 c).
Proof.
  apply frames_bind; [apply frames_require|apply keeps_require|]. intros _.
  apply frames_on_available. intros m dest a Hd. now apply putc_inside.
Qed.

Lemma frames_put_utf8 clz0 c : frames (mxbuf_put_utf8 clz0 c).
Proof.
  unfold mxbuf_put_utf8.
  repeat match goal with |- context [?a <? ?b] => destruct (a <? b) end;
    repeat (apply frames_bind; [apply frames_putc|apply keeps_putc|intros _]);
    apply frames_ret.
Qed.

Lemma frames_trim : frames mxbuf_trim.
Proof.
  intros F s a s' Hsafe E. pose proof Hsafe as ((Hb & _) & _).
  unfold mxbuf_trim in E.
  apply bind_Some in E as (b & s1 & E1 & E).
  inversion E1; subst; clear E1.
  destruct (negb _); [|inversion E; subst; apply frame_refl].
  apply bind_Some in E as (l & s2 & E1 & E).
  unfold assert_some in E1.
  destruct (mxstr_substr_offset _ _) as [l'|] eqn:Ho; [|discriminate].
  inversion E1; subst; clear E1.
  apply mxstr_substr_offset_Some in Ho as [_ Hl].
  apply bind_Some in E as (q & s3 & E1 & E).
  unfold realloc_ in E1.
  destruct (mxutil_realloc _ _ _) as [[h' q']|] eqn:Hre; [|discriminate].
  inversion E1; subst; clear E1.
  apply bind_Some in E as (u & s4 & E1 & E).
  inversion E1; subst; clear E1. inversion E; subst; clear E.
  pose proof (mxutil_realloc_mem _ _ _ _ _ Hre) as Hmem.
  apply mxutil_realloc_Some in Hre as (-> & Hnz & Hbrk & _).
  unfold frame, in_storage, mxstr. cbn [st_heap st_buf buf ptr len].
  split; [lia|]. split; [intros a Ha _; now apply Hmem|].
  intros a Ha. right. lia.
Qed.

Lemma free_mem s u s' :
  mxbuf_free s = Some (u, s') ->
  brk (st_heap s') = brk (st_heap s) /\ mem (st_heap s') = mem (st_heap s).
Proof.
  intros E. unfold mxbuf_free in E.
  apply bind_Some in E as (b & s1 & E1 & E).
  inversion E1; subst; clear E1.
  apply bind_Some in E as (u1 & s2 & E1 & E).
  apply bind_Some in E as (u2 & s3 & E2 & E).
  inversion E2; subst; clear E2. inversion E; subst; clear E.
  cbn [st_heap]. destruct (negb _).
  - unfold free_, heap_free in E1.
    destruct (ptr (buf (st_buf s1)) =? NULL).
    + now inversion E1; subst.
    + destruct (blocks (st_heap s1) !! ptr (buf (st_buf s1)));
        [|discriminate]. cbn in E1. now inversion E1; subst.
  - now inversion E1; subst.
Qed.

(** X20. No buffer operation writes outside the buffer: a byte that belongs to
    memory in use before the operation and lies outside the storage of the
    buffer has the same value afterwards.  Writes go to the storage or, when
    the buffer grows or is trimmed, to the fresh block. *)
Theorem mxbuf_ops_frame clz0 op F s u s' :
  op_ok op -> op_safe_pre op F s ->
  run_op clz0 op s = Some (u, s') ->
  brk (st_heap s) <= brk (st_heap s') /\
  forall a, a < brk (st_heap s) -> ~ in_storage (st_buf s) a ->
            mem (st_heap s') a = mem (st_heap s) a.
Proof.
  intros Hok Hpre E.
  assert (frame s s' \/
          (brk (st_heap s') = brk (st_heap s) /\
           mem (st_heap s') = mem (st_heap s))) as [(H1 & H2 & _)|[H1 H2]].
  { destruct op; cbn [run_op op_ok op_safe_pre] in *.
    - right. now inversion E; subst.
    - right. unfold mxbuf_reset in E.
      apply bind_Some in E as (b & s1 & E1 & E).
      inversion E1; subst. now inversion E; subst.
    - right. eapply free_mem; eassumption.
    - left. eapply frames_trim; eassumption.
    - left. eapply frames_require; eassumption.
    - left.
      refine (frames_bind _ _ _ (keeps_write clz0 str _) _ F s u s' Hpre E).
      + apply frames_bind; [apply frames_require|apply keeps_require|].
        intros _. apply frames_on_available. intros m dest a _.
        apply write_inside.
      + unfold str_ok, is_size in Hok. lia.
      + intros _. apply frames_ret.
    - left.
      refine (frames_bind _ _ (frames_putc clz0 c) (keeps_putc clz0 c) _
                F s u s' Hpre E).
      intros _. apply frames_ret.
    - left.
      refine (frames_bind _ _ (frames_put_utf8 clz0 c) (keeps_put_utf8 clz0 c)
                _ F s u s' Hpre E).
      intros _. apply frames_ret.
    - left.
      refine (frames_bind _ _ _ (keeps_write_chars clz0 c n _) _ F s u s'
                Hpre E).
      + apply frames_bind; [apply frames_require|apply keeps_require|].
        intros _. apply frames_on_available. intros m dest a _.
        apply write_chars_inside.
      + unfold is_size in Hok. lia.
      + intros _. apply frames_ret. }
  - split; assumption.
  - rewrite H1, H2. split; [lia|reflexivity].
Qed.

Lemma mxbuf_ops_frame_witness :
  let s :=
    State (Heap (Mem.of_list 100 [97; 98; 99]) {[ 1000 := 2 ]} 3000)
          (Mxbuf (Mxstr 1000 2) (Mxstr 1002 0) (Mxstr 500 1)) in
  exists s',
    run_op 32 (OpWrite (Mxstr 100 3)) s = Some (tt, s') /\
    Mem.read (mem (st_heap s')) 100 3 = [97; 98; 99].
Proof.
  cbv zeta.
  set (s := State (Heap (Mem.of_list 100 [97; 98; 99]) {[ 1000 := 2 ]} 3000)
                  (Mxbuf (Mxstr 1000 2) (Mxstr 1002 0) (Mxstr 500 1))).
  assert (op_ok (OpWrite (Mxstr 100 3))) as Hok
    by (unfold op_ok, str_ok, is_size, size_mod; cbn; lia).
  assert (op_safe_pre (OpWrite (Mxstr 100 3)) ∅ s) as Hpre.
  { cbn [op_safe_pre]. unfold safe, s. cbn [st_heap st_buf].
    split; [|split; [|split]].
    - unfold buf_inv, is_size, size_mod. cbn. lia.
    - unfold heap_ok, owned, NULL. cbn. repeat split; lia || reflexivity.
    - unfold heap_wf. cbn [blocks brk]. split; [lia|]. intros a sz Ha.
      apply lookup_singleton_Some in Ha as [<- <-]. lia.
    - unfold foreign. cbn. apply delete_singleton_eq. }
  destruct (run_op 32 (OpWrite (Mxstr 100 3)) s) as [[[] s']|] eqn:E;
    [|vm_compute in E; discriminate].
  exists s'. split; [reflexivity|].
  destruct (mxbuf_ops_frame 32 (OpWrite (Mxstr 100 3)) ∅ s tt s' Hok Hpre E)
    as [_ H].
  cbn [Mem.read seq map]. rewrite !H; [reflexivity|..];
    unfold in_storage, s; cbn; lia.
Defined.

(** ** Slices *)

Lemma read_skipn m p n k :
  skipn k (Mem.read m p n) = Mem.read m (p + Z.of_nat k) (n - k).
Proof.
  destruct (Nat.le_gt_cases k n) as [Hle|Hgt].
  - replace n with (k + (n - k))%nat at 1 by lia.
    rewrite read_app, skipn_app, read_length.
    replace (k - k)%nat with O by lia.
    rewrite skipn_all2 by (rewrite read_length; lia). reflexivity.
  - replace (n - k)%nat with O by lia.
    rewrite skipn_all2 by (rewrite read_length; lia). reflexivity.
Qed.

(** X21. The bytes of the view [mxstr_substr] returns are the bytes of [v] from
    the clamped [start] up to the clamped [end_]; the whole view is the slice
    [0, len v), and a slice of an exact slice is the slice at the added
    offsets. *)
Theorem mxstr_substr_bytes m v start end_ :
  str_ok v -> is_size start -> is_size end_ ->
  let s := Z.min start (len v) in
  let e := Z.min (Z.max start end_) (len v) in
  str_bytes m (snd (mxstr_substr v start end_)) =
    firstn (Z.to_nat (e - s)) (skipn (Z.to_nat s) (str_bytes m v)) /\
  mxstr_substr v 0 (len v) = (true, Mxstr (ptr v + 0) (len v)) /\
  (forall start2 end2,
     start <= end_ <= len v -> 0 <= start2 <= end2 ->
     end2 <= end_ - start ->
     mxstr_substr (snd (mxstr_substr v start end_)) start2 end2 =
       (true, Mxstr (ptr v + start + start2) (end2 - start2)) /\
     mxstr_substr v (start + start2) (start + end2) =
       (true, Mxstr (ptr v + (start + start2)) (end2 - start2))).
Proof.
  intros Hv Hs He. cbv zeta. pose proof Hv as Hv'.
  unfold str_ok, is_size in Hv', Hs, He. split; [|split].
  - rewrite mxstr_substr_eq by assumption. cbn [snd].
    unfold str_bytes. cbn [ptr len]. rewrite read_skipn, read_firstn by lia.
    f_equal. lia.
  - rewrite mxstr_substr_eq by (assumption || (unfold is_size; lia)).
    f_equal; [|f_equal; lia].
    destruct (Z.ltb_spec (len v) 0), (Z.gtb_spec 0 (len v)),
      (Z.gtb_spec (len v) (len v)); cbn; lia || reflexivity.
  - intros start2 end2 H1 H2 H3.
    rewrite (mxstr_substr_eq v start end_) by assumption. cbn [snd].
    rewrite !mxstr_substr_eq
      by (unfold str_ok, is_size in *; cbn [len]; lia). cbn [ptr len].
    split; (f_equal; [|f_equal; lia]).
    + destruct (Z.ltb_spec end2 start2), (Z.gtb_spec start2
        (Z.min (Z.max start end_) (len v) - Z.min start (len v))),
        (Z.gtb_spec end2
        (Z.min (Z.max start end_) (len v) - Z.min start (len v)));
        cbn; lia || reflexivity.
    + destruct (Z.ltb_spec (start + end2) (start + start2)),
        (Z.gtb_spec (start + start2) (len v)),
        (Z.gtb_spec (start + end2) (len v)); cbn; lia || reflexivity.
Qed.

Lemma mxstr_substr_bytes_witness :
  let m := Mem.of_list 100 [48; 49; 50; 51; 52; 53; 54; 55; 56; 57] in
  str_bytes m (snd (mxstr_substr (Mxstr 100 10) 2 5)) = [50; 51; 52] /\
  mxstr_substr (snd (mxstr_substr (Mxstr 100 10) 2 8)) 1 3 =
    (true, Mxstr 103 2).
Proof.
  cbv zeta.
  destruct (mxstr_substr_bytes
              (Mem.of_list 100 [48; 49; 50; 51; 52; 53; 54; 55; 56; 57])
              (Mxstr 100 10) 2 5) as (Hb & _);
    [unfold str_ok, is_size, size_mod; cbn; lia
    |unfold is_size, size_mod; lia|unfold is_size, size_mod; lia|].
  destruct (mxstr_substr_bytes
              (Mem.of_list 100 [48; 49; 50; 51; 52; 53; 54; 55; 56; 57])
              (Mxstr 100 10) 2 8) as (_ & _ & Hc);
    [unfold str_ok, is_size, size_mod; cbn; lia
    |unfold is_size, size_mod; lia|unfold is_size, size_mod; lia|].
  split; [rewrite Hb; reflexivity|].
  destruct (Hc 1 3) as [H _]; cbn; try lia. exact H.
Defined.

(** ** Single bytes *)

(** X22. [mxstr_putc] is [mxstr_write_chars] with a count of one: the same bytes
    end up in memory, the destination moves alike, and the flag says whether
    one byte was written.  It is false exactly on an empty destination, and
    then neither the memory nor the destination changes. *)
Theorem mxstr_putc_write_chars m dest c :
  str_ok dest ->
  let p := mxstr_putc m dest c in
  let w := mxstr_write_chars m dest c 1 in
  snd (fst p) = snd (fst w) /\
  snd p = (snd w =? 1) /\
  (forall a, fst (fst p) a = fst (fst w) a) /\
  (snd p = false <-> len dest = 0) /\
  (snd p = false -> snd (fst p) = dest /\ fst (fst p) = m).
Proof.
  intros Hd. cbv zeta. pose proof Hd as Hd'. unfold str_ok, is_size in Hd'.
  rewrite mxstr_write_chars_eq by (assumption || lia).
  unfold mxstr_putc, mxstr_empty.
  destruct (Z.eqb_spec (len dest) 0) as [E|E]; cbn [negb fst snd].
  - rewrite E. change (Z.min 0 1) with 0. cbn [Z.eqb].
    repeat split; try reflexivity; try tauto.
    + destruct dest as [q l]. cbn in *. subst. f_equal. lia.
    + intros a. unfold Mem.memset.
      destruct (Z.leb_spec (ptr dest) a), (Z.ltb_spec a (ptr dest + 0));
        cbn; reflexivity || lia.
  - rewrite mxstr_consume_eq by (assumption || lia). cbn [fst].
    replace (Z.min (len dest) 1) with 1 by lia.
    repeat split; try reflexivity; try discriminate; try lia.
    intros a. unfold Mem.store, Mem.memset.
    destruct (Z.eqb_spec a (ptr dest)), (Z.leb_spec (ptr dest) a),
      (Z.ltb_spec a (ptr dest + 1)); cbn; reflexivity || lia.
Qed.

Lemma mxstr_putc_write_chars_witness :
  snd (mxstr_putc (fun _ => 0) (Mxstr 100 0) 65) = false /\
  snd (fst (mxstr_putc (fun _ => 0) (Mxstr 100 2) 65)) = Mxstr 101 1.
Proof.
  destruct (mxstr_putc_write_chars (fun _ => 0) (Mxstr 100 0) 65)
    as (_ & _ & _ & Hf & _); [unfold str_ok, is_size, size_mod; cbn; lia|].
  destruct (mxstr_putc_write_chars (fun _ => 0) (Mxstr 100 2) 65)
    as (Hd & _); [unfold str_ok, is_size, size_mod; cbn; lia|].
  split; [apply Hf; reflexivity|]. rewrite Hd. reflexivity.
Defined.

(** X23. Reading a view byte by byte: [mxstr_getchar] fails exactly on the empty
    view and then leaves the variable alone; otherwise it yields the first
    byte, and [mxstr_consume] of one byte leaves the rest.  The reader loop
    therefore ends after [len v] bytes, with the bytes of the view in order
    and the empty view at its end. *)
Theorem mxstr_getchar_enumerates m v c fuel :
  str_ok v -> (Z.to_nat (len v) < fuel)%nat ->
  (len v = 0 -> mxstr_getchar m v c = (false, c)) /\
  (0 < len v ->
   mxstr_getchar m v c = (true, m (ptr v)) /\
   str_bytes m v = m (ptr v) :: str_bytes m (fst (mxstr_consume v 1))) /\
  getchar_loop fuel m v c = Some (str_bytes m v, Mxstr (ptr v + len v) 0).
Proof.
  intros Hv Hf.
  assert (Hget : forall v c, str_ok v ->
            mxstr_getchar m v c =
              if 0 <? len v then (true, m (ptr v)) else (false, c)).
  { intros w d Hw. unfold mxstr_getchar, Mem.load.
    unfold str_ok, is_size in Hw.
    destruct (Z.gtb_spec (len w) 0), (Z.ltb_spec 0 (len w)); try lia;
      reflexivity. }
  assert (Hcons : forall v, str_ok v -> 0 < len v ->
            str_bytes m v = m (ptr v) :: str_bytes m (fst (mxstr_consume v 1))).
  { intros w Hw Hp. rewrite mxstr_consume_eq by (assumption || lia).
    replace (Z.min (len w) 1) with 1 by lia. unfold str_bytes. cbn [fst ptr len].
    replace (Z.to_nat (len w)) with (S (Z.to_nat (len w - 1))) by lia.
    apply read_S. }
  split; [|split].
  - intros E. rewrite Hget by assumption.
    destruct (Z.ltb_spec 0 (len v)); [lia|reflexivity].
  - intros Hp. split; [|now apply Hcons].
    rewrite Hget by assumption.
    destruct (Z.ltb_spec 0 (len v)); [reflexivity|lia].
  - revert v c Hv Hf. induction fuel as [|fuel IH]; intros v c Hv Hf; [lia|].
    cbn [getchar_loop]. rewrite Hget by assumption.
    pose proof Hv as Hv'. unfold str_ok, is_size in Hv'.
    destruct (Z.ltb_spec 0 (len v)) as [Hp|Hp].
    + rewrite (Hcons v Hv Hp).
      rewrite mxstr_consume_eq by (assumption || lia).
      replace (Z.min (len v) 1) with 1 by lia. cbn [fst].
      rewrite IH; cbn [len ptr];
        [|unfold str_ok, is_size; cbn [len]; lia|lia].
      do 3 f_equal. lia.
    + replace (len v) with 0 by lia. unfold str_bytes.
      replace (len v) with 0 by lia. cbn.
      destruct v as [p l]. cbn in *. do 2 f_equal. f_equal; lia.
Qed.

Lemma mxstr_getchar_enumerates_witness :
  getchar_loop 4 (Mem.of_list 100 [97; 98; 99]) (Mxstr 100 3) 0 =
    Some ([97; 98; 99], Mxstr 103 0).
Proof.
  apply (mxstr_getchar_enumerates (Mem.of_list 100 [97; 98; 99])
           (Mxstr 100 3) 0 4);
    [unfold str_ok, is_size, size_mod; cbn; lia | cbn; lia].
Defined.
